(** * A contact manager: fields, records and the address book

    Shallow embedding of [m12-task-01.py].

    Conventions of the embedding.
    - A Python [str] is a [string]; a character is read as the code point
      U+0000..U+00FF with the same number, so the development covers the
      strings made of those code points.
    - A Python exception is a value of [exn]; a method that may raise and
      that mutates [self] is a computation in the monad [M] below, which
      threads the object's state and keeps it when an exception escapes.
    - The objects held by a list or a dict are held by value: every [Phone]
      of a record is created by [add_phone] for that record alone, so no two
      entries alias. *)

From Stdlib Require Import String Ascii List ZArith Lia Bool.
Import ListNotations.

Local Open Scope string_scope.
Local Open Scope Z_scope.

(** ** Exceptions and the state-and-exception monad *)

Inductive exn : Type :=
| ValueError (msg : string)
| OverflowError (msg : string).

(** The outcome of an expression that may raise. *)
Definition result (A : Type) : Type := (exn + A)%type.

(** A method body over an object of state [S]. *)
Definition M (S A : Type) : Type := S -> result A * S.

Definition ret {S A : Type} (a : A) : M S A := fun s => (inr a, s).

Definition bind {S A B : Type} (m : M S A) (k : A -> M S B) : M S B :=
  fun s =>
    match m s with
    | (inl e, s') => (inl e, s')
    | (inr a, s') => k a s'
    end.

Definition raise {S A : Type} (e : exn) : M S A := fun s => (inl e, s).

Definition get {S : Type} : M S S := fun s => (inr s, s).

Definition put {S : Type} (s : S) : M S unit := fun _ => (inr tt, s).

(** Evaluate an expression that touches no state. *)
Definition lift {S A : Type} (r : result A) : M S A := fun s => (r, s).

Notation "x <- m ;; k" := (bind m (fun x => k))
  (at level 61, m at next level, right associativity).
Notation "m ;;; k" := (bind m (fun _ => k))
  (at level 61, right associativity).

(** [for x in xs: acc = body x acc], stopping at the first exception. *)
Fixpoint for_each {S A B : Type} (xs : list A) (body : A -> B -> M S B)
    (acc : B) : M S B :=
  match xs with
  | [] => ret acc
  | x :: xs' => acc' <- body x acc ;; for_each xs' body acc'
  end.

(** ** Strings *)

Definition code (c : ascii) : Z := Z.of_N (N_of_ascii c).

(** [re]'s [\d] on these code points: the ten decimal digits. *)
Definition is_decimal (c : ascii) : bool :=
  (48 <=? code c) && (code c <=? 57).

(** One character of [str.isdigit]: the decimal digits and the characters
    whose Unicode numeric type is Digit, here superscript two, three and
    one (U+00B2, U+00B3, U+00B9). *)
Definition char_isdigit (c : ascii) : bool :=
  is_decimal c || (code c =? 178) || (code c =? 179) || (code c =? 185).

Fixpoint all_chars (p : ascii -> bool) (s : string) : bool :=
  match s with
  | EmptyString => true
  | String c s' => p c && all_chars p s'
  end.

(** [str.isdigit()]: every character is a digit and there is at least
    one. *)
Definition isdigit (s : string) : bool :=
  match s with
  | EmptyString => false
  | _ => all_chars char_isdigit s
  end.

Definition len (s : string) : Z := Z.of_nat (String.length s).

(** ** Fields *)

(** [class Field]: one attribute, [value]. [Name], [Phone] and [Birthday]
    add no attribute. *)
Record Field : Type := mkField { value : string }.

Definition Name : Type := Field.
Definition Phone : Type := Field.
Definition Birthday : Type := Field.

(** [Field.__str__] *)
Definition Field_str (f : Field) : string := value f.

(** [Field.__init__] *)
Definition Field_init (v : string) : Field := mkField v.

Definition phone_error : exn := ValueError "Invalid phone number format.".

(** [Phone.__init__] *)
Definition Phone_init (v : string) : result Phone :=
  if negb (isdigit v && (len v =? 10)) then inl phone_error
  else inr (Field_init v).

(** Expressions that may raise, in sequence. *)
Definition rbind {A B : Type} (r : result A) (k : A -> result B) : result B :=
  match r with
  | inl e => inl e
  | inr a => k a
  end.

Notation "'let?' x ':=' r 'in' k" := (rbind r (fun x => k))
  (at level 10, x name, r at level 100, k at level 200).

(** ** The library's calendar: [datetime] *)

Definition MINYEAR : Z := 1.
Definition MAXYEAR : Z := 9999.
Definition MAXORDINAL : Z := 3652059.

Definition is_leap (year : Z) : bool :=
  (year mod 4 =? 0) && (negb (year mod 100 =? 0) || (year mod 400 =? 0)).

Definition days_before_year (year : Z) : Z :=
  let y := year - 1 in
  y * 365 + y / 4 - y / 100 + y / 400.

Definition DAYS_IN_MONTH (month : Z) : Z :=
  match month with
  | 1 => 31 | 2 => 28 | 3 => 31 | 4 => 30 | 5 => 31 | 6 => 30
  | 7 => 31 | 8 => 31 | 9 => 30 | 10 => 31 | 11 => 30 | 12 => 31
  | _ => -1
  end.

Definition DAYS_BEFORE_MONTH (month : Z) : Z :=
  match month with
  | 1 => 0 | 2 => 31 | 3 => 59 | 4 => 90 | 5 => 120 | 6 => 151
  | 7 => 181 | 8 => 212 | 9 => 243 | 10 => 273 | 11 => 304 | 12 => 334
  | _ => -1
  end.

Definition days_in_month (year month : Z) : Z :=
  if (month =? 2) && is_leap year then 29 else DAYS_IN_MONTH month.

Definition days_before_month (year month : Z) : Z :=
  DAYS_BEFORE_MONTH month +
  (if (2 <? month) && is_leap year then 1 else 0).

Definition ymd2ord (year month day : Z) : Z :=
  days_before_year year + days_before_month year month + day.

(** The checks of the [date] constructor. *)
Definition check_date_fields (year month day : Z) : result (Z * Z * Z) :=
  if negb ((MINYEAR <=? year) && (year <=? MAXYEAR)) then
    inl (ValueError "year out of range")
  else if negb ((1 <=? month) && (month <=? 12)) then
    inl (ValueError "month must be in 1..12")
  else if negb ((1 <=? day) && (day <=? days_in_month year month)) then
    inl (ValueError "day is out of range for month")
  else inr (year, month, day).

(** A [datetime] is kept as what [toordinal()] returns (1 is 1 January of
    year 1) together with the microseconds elapsed since midnight. The
    library orders datetimes by (year, month, day, hour, minute, second,
    microsecond), which is the order of these pairs. *)
Record datetime : Type := mkDatetime { toordinal : Z; microsecond_of_day : Z }.

(** [datetime.weekday()]: Monday is 0, Sunday is 6. *)
Definition weekday (d : datetime) : Z := (toordinal d + 6) mod 7.

(** [a <= b] on datetimes. *)
Definition datetime_le (a b : datetime) : bool :=
  (toordinal a <? toordinal b) ||
  ((toordinal a =? toordinal b) &&
   (microsecond_of_day a <=? microsecond_of_day b)).

(** [d + timedelta(days=n)] *)
Definition datetime_add_days (d : datetime) (n : Z) : result datetime :=
  let days := toordinal d + n in
  if (0 <? days) && (days <=? MAXORDINAL) then
    inr (mkDatetime days (microsecond_of_day d))
  else inl (OverflowError "result out of range").

(** ** The library's [strptime] at the format [%d.%m.%Y] *)

(** The fragment of regular expressions the format compiles to. *)
Inductive regex : Type :=
| Chr (p : ascii -> bool)
| Seq (r1 r2 : regex)
| Alt (r1 r2 : regex).

Definition lit (c : ascii) : ascii -> bool := fun x => code x =? code c.

Definition range (lo hi : ascii) : ascii -> bool :=
  fun x => (code lo <=? code x) && (code x <=? code hi).

(** Every way [r] matches a prefix of [s], as (matched text, text left), in
    the order in which a backtracking matcher tries them: the left branch
    of an alternative before the right one. *)
Fixpoint matches (r : regex) (s : string) : list (string * string) :=
  match r with
  | Chr p =>
      match s with
      | String c s' => if p c then [(String c EmptyString, s')] else []
      | EmptyString => []
      end
  | Seq r1 r2 =>
      flat_map
        (fun m1 => map (fun m2 => (fst m1 ++ fst m2, snd m2))
                       (matches r2 (snd m1)))
        (matches r1 s)
  | Alt r1 r2 => matches r1 s ++ matches r2 s
  end.

(** [%d]: [3[0-1]|[1-2]\d|0[1-9]|[1-9]| [1-9]] *)
Definition regex_d : regex :=
  Alt (Seq (Chr (lit "3")) (Chr (range "0" "1")))
 (Alt (Seq (Chr (range "1" "2")) (Chr is_decimal))
 (Alt (Seq (Chr (lit "0")) (Chr (range "1" "9")))
 (Alt (Chr (range "1" "9"))
      (Seq (Chr (lit " ")) (Chr (range "1" "9")))))).

(** [%m]: [1[0-2]|0[1-9]|[1-9]] *)
Definition regex_m : regex :=
  Alt (Seq (Chr (lit "1")) (Chr (range "0" "2")))
 (Alt (Seq (Chr (lit "0")) (Chr (range "1" "9")))
      (Chr (range "1" "9"))).

(** [%Y]: [\d\d\d\d] *)
Definition regex_Y : regex :=
  Seq (Chr is_decimal) (Seq (Chr is_decimal)
 (Seq (Chr is_decimal) (Chr is_decimal))).

Definition regex_dot : regex := Chr (lit ".").

(** A match object: the three named groups and the text after the match. *)
Record found : Type := mkFound {
  group_d : string;
  group_m : string;
  group_Y : string;
  unconverted : string
}.

(** [format_regex.match(data_string)] for
    [(?P<d>...)\.(?P<m>...)\.(?P<Y>...)]: the first way to match all five
    parts in turn, anchored at the start only. The format has no letter, so
    matching without regard to case changes nothing. *)
Definition format_regex_match (data_string : string) : option found :=
  hd_error
    (flat_map (fun d =>
     flat_map (fun dot1 =>
     flat_map (fun m =>
     flat_map (fun dot2 =>
     map (fun Y => mkFound (fst d) (fst m) (fst Y) (snd Y))
         (matches regex_Y (snd dot2)))
       (matches regex_dot (snd m)))
       (matches regex_m (snd dot1)))
       (matches regex_dot (snd d)))
       (matches regex_d data_string)).

(** [found.end()] *)
Definition found_end (data_string : string) (f : found) : Z :=
  len data_string - len (unconverted f).

Fixpoint lstrip (s : string) : string :=
  match s with
  | String c s' => if code c =? 32 then lstrip s' else s
  | EmptyString => s
  end.

Fixpoint decimal_value (s : string) (acc : Z) : option Z :=
  match s with
  | EmptyString => Some acc
  | String c s' =>
      if is_decimal c then decimal_value s' (10 * acc + (code c - 48))
      else None
  end.

(** [int(s)] on the texts a group can hold: decimal digits after optional
    leading blanks. *)
Definition int (s : string) : result Z :=
  match lstrip s with
  | EmptyString => inl (ValueError "invalid literal for int()")
  | t =>
      match decimal_value t 0 with
      | Some n => inr n
      | None => inl (ValueError "invalid literal for int()")
      end
  end.

(** [datetime.strptime(data_string, "%d.%m.%Y")]: midnight of the day
    read. *)
Definition strptime (data_string : string) : result datetime :=
  match format_regex_match data_string with
  | None => inl (ValueError "time data does not match format")
  | Some f =>
      if negb (len data_string =? found_end data_string f) then
        inl (ValueError "unconverted data remains")
      else
        let? year := int (group_Y f) in
        let? month := int (group_m f) in
        let? day := int (group_d f) in
        let? ymd := check_date_fields year month day in
        inr (mkDatetime (ymd2ord year month day) 0)
  end.

Definition birthday_error : exn :=
  ValueError "Invalid birthday format. Use DD.MM.YYYY.".

(** [Birthday.__init__]: any [ValueError] of the parse is replaced. *)
Definition Birthday_init (v : string) : result Birthday :=
  match strptime v with
  | inl (ValueError _) => inl birthday_error
  | inl e => inl e
  | inr _ => inr (Field_init v)
  end.

(** ** Records *)

(** [class Record]. *)
Module ContactRecord.

Record t : Type := mk {
  name : Name;
  phones : list Phone;
  birthday : option Birthday
}.

(** [Record.__init__] *)
Definition init (name : string) : t := mk (Field_init name) [] None.

Definition set_phones (ps : list Phone) : M t unit :=
  fun self => (inr tt, mk (name self) ps (birthday self)).

Definition set_birthday (b : option Birthday) : M t unit :=
  fun self => (inr tt, mk (name self) (phones self) b).

(** [self.phones.append(Phone(phone))]: the argument is built first. *)
Definition add_phone (phone : string) : M t unit :=
  p <- lift (Phone_init phone) ;;
  self <- get ;;
  set_phones (phones self ++ [p]).

(** The list without its first entry whose value is [phone]. *)
Fixpoint remove_first (phone : string) (ps : list Phone) : list Phone :=
  match ps with
  | [] => []
  | p :: ps' =>
      if String.eqb (value p) phone then ps' else p :: remove_first phone ps'
  end.

Definition remove_phone (phone : string) : M t unit :=
  self <- get ;;
  set_phones (remove_first phone (phones self)).

(** The loop of [edit_phone]: the first entry whose value is [old_phone]
    gets the value [new_phone], and the loop returns. *)
Fixpoint edit_first (old_phone new_phone : string) (ps : list Phone)
    : list Phone :=
  match ps with
  | [] => []
  | p :: ps' =>
      if String.eqb (value p) old_phone then mkField new_phone :: ps'
      else p :: edit_first old_phone new_phone ps'
  end.

Definition edit_phone (old_phone new_phone : string) : M t unit :=
  self <- get ;;
  set_phones (edit_first old_phone new_phone (phones self)).

Definition add_birthday (birthday : string) : M t unit :=
  b <- lift (Birthday_init birthday) ;;
  set_birthday (Some b).

End ContactRecord.

(** ** The address book *)

(** A [dict] with [str] keys: the items in insertion order, one per key. *)
Section Dict.

Context {V : Type}.

Definition dict : Type := list (string * V).

Fixpoint dict_get (d : dict) (k : string) : option V :=
  match d with
  | [] => None
  | (k', v) :: d' => if String.eqb k' k then Some v else dict_get d' k
  end.

Definition dict_contains (d : dict) (k : string) : bool :=
  match dict_get d k with
  | Some _ => true
  | None => false
  end.

(** [d[k] = v]: a key already present keeps its place. *)
Fixpoint dict_set (d : dict) (k : string) (v : V) : dict :=
  match d with
  | [] => [(k, v)]
  | (k', v') :: d' =>
      if String.eqb k' k then (k', v) :: d'
      else (k', v') :: dict_set d' k v
  end.

(** [del d[k]] for a key that is present. *)
Fixpoint dict_del (d : dict) (k : string) : dict :=
  match d with
  | [] => []
  | (k', v') :: d' =>
      if String.eqb k' k then d' else (k', v') :: dict_del d' k
  end.

Definition dict_keys (d : dict) : list string := map fst d.

(** What every [dict] satisfies. *)
Definition dict_ok (d : dict) : Prop := NoDup (dict_keys d).

End Dict.

Arguments dict V : clear implicits.

Module AddressBook.

(** [self.data] *)
Definition t : Type := dict ContactRecord.t.

Definition empty : t := [].

Definition add_record (record : ContactRecord.t) : M t unit :=
  data <- get ;;
  put (dict_set data (value (ContactRecord.name record)) record).

Definition find (name : string) : M t (option ContactRecord.t) :=
  data <- get ;;
  ret (dict_get data name).

Definition delete (name : string) : M t unit :=
  data <- get ;;
  if dict_contains data name then put (dict_del data name) else ret tt.

(** One turn of the loop of [get_birthdays_per_week]. *)
Definition birthday_step (next_week_start next_week_end : datetime)
    (item : string * ContactRecord.t) (upcoming_birthdays : list string)
    : M t (list string) :=
  let (name, record) := item in
  match ContactRecord.birthday record with
  | Some b =>
      birth_date <- lift (strptime (value b)) ;;
      if datetime_le next_week_start birth_date
         && datetime_le birth_date next_week_end
      then ret (upcoming_birthdays
                ++ [(name ++ ": " ++ Field_str b)%string])%list
      else ret upcoming_birthdays
  | None => ret upcoming_birthdays
  end.

(** [today] stands for what [datetime.today()] returns. *)
Definition get_birthdays_per_week (today : datetime) : M t (list string) :=
  next_week_start <-
    lift (datetime_add_days today ((6 - weekday today) + 7)) ;;
  next_week_end <- lift (datetime_add_days next_week_start 6) ;;
  data <- get ;;
  for_each data (birthday_step next_week_start next_week_end) [].

End AddressBook.

(** ** The specification's vocabulary *)

(** Exactly ten characters that [str.isdigit] takes for digits. *)
Definition ten_digits (s : string) : Prop :=
  String.length s = 10%nat /\
  Forall (fun c => char_isdigit c = true) (list_ascii_of_string s).

(** Exactly ten characters among ['0'] .. ['9']. *)
Definition ten_ascii_digits (s : string) : Prop :=
  String.length s = 10%nat /\
  Forall (fun c => is_decimal c = true) (list_ascii_of_string s).

(** Ten times superscript two, U+00B2. *)
Definition superscript_two : ascii := ascii_of_N 178.

Definition ten_superscripts : string :=
  let c := superscript_two in
  String c (String c (String c (String c (String c
 (String c (String c (String c (String c (String c EmptyString))))))))).

(** The values of a phone list. *)
Definition phone_values (ps : list Phone) : list string := map value ps.

(** *** The window of the coming week *)

(** The window, in the words of the specification. *)
Definition daysUntilNextMonday (referenceDate : datetime) : Z :=
  (6 - weekday referenceDate) + 7.

Definition plus_days (d : datetime) (n : Z) : datetime :=
  mkDatetime (toordinal d + n) (microsecond_of_day d).

Definition windowStart (referenceDate : datetime) : datetime :=
  plus_days referenceDate (daysUntilNextMonday referenceDate).

Definition windowEnd (referenceDate : datetime) : datetime :=
  plus_days (windowStart referenceDate) 6.

Definition in_window (referenceDate d : datetime) : bool :=
  datetime_le (windowStart referenceDate) d
  && datetime_le d (windowEnd referenceDate).

(** The line of an item, when its record has a birthday that, read as the
    date it writes, lies in the window. *)
Definition upcoming_line (referenceDate : datetime)
    (item : string * ContactRecord.t) : option string :=
  match ContactRecord.birthday (snd item) with
  | Some b =>
      match strptime (value b) with
      | inr d =>
          if in_window referenceDate d
          then Some (fst item ++ ": " ++ value b)%string
          else None
      | inl _ => None
      end
  | None => None
  end.

(** The lines of the items that have one, in the order of the items. *)
Definition upcomingBirthdays (referenceDate : datetime)
    (book : AddressBook.t) : list string :=
  flat_map
    (fun item =>
       match upcoming_line referenceDate item with
       | Some line => [line]
       | None => []
       end)
    book.

(** Every birthday of the book was built by [Birthday]. *)
Definition birthdays_built (book : AddressBook.t) : Prop :=
  forall (n : string) (r : ContactRecord.t) (b : Birthday),
    In (n, r) book -> ContactRecord.birthday r = Some b ->
    Birthday_init (value b) = inr b.







(** *** The writing of a date *)

(** The text before the first full stop of [s], and the text after it. *)
Fixpoint split_dot (s : string) : option (string * string) :=
  match s with
  | EmptyString => None
  | String c s' =>
      if lit "." c then Some (EmptyString, s')
      else
        match split_dot s' with
        | Some (t, rest) => Some (String c t, rest)
        | None => None
        end
  end.

(** The number a text writes. *)
Definition number (t : string) : Z :=
  match int t with
  | inr n => n
  | inl _ => 0
  end.

(** A day of a month of a year of the calendar, years counted from 1. *)
Definition existing_date (year month day : Z) : bool :=
  (1 <=? year) && (1 <=? month) && (month <=? 12)
  && (1 <=? day) && (day <=? days_in_month year month).

(** One or two digits, or a blank and a digit. *)
Definition day_text (t : string) : bool :=
  match t with
  | String c EmptyString => is_decimal c
  | String c1 (String c2 EmptyString) =>
      (is_decimal c1 || lit " " c1) && is_decimal c2
  | _ => false
  end.

(** One or two digits. *)
Definition month_text (t : string) : bool :=
  match t with
  | String c EmptyString => is_decimal c
  | String c1 (String c2 EmptyString) => is_decimal c1 && is_decimal c2
  | _ => false
  end.

(** Four digits. *)
Definition year_text (t : string) : bool :=
  match t with
  | String c1 (String c2 (String c3 (String c4 EmptyString))) =>
      is_decimal c1 && is_decimal c2 && is_decimal c3 && is_decimal c4
  | _ => false
  end.

(** What the code takes for a birthday: day, month and year separated by
    full stops, the day and the month with or without their leading zero,
    and the three of them an existing date. *)
Definition lenient_date (s : string) : bool :=
  match split_dot s with
  | Some (d, rest) =>
      match split_dot rest with
      | Some (m, y) =>
          day_text d && month_text m && year_text y
          && existing_date (number y) (number m) (number d)
      | None => false
      end
  | None => false
  end.

(** The pattern DD.MM.YYYY of the specification: two digits, a full stop,
    two digits, a full stop, four digits, and the three numbers an
    existing date. *)
Definition strict_date (s : string) : bool :=
  match s with
  | String d1 (String d2 (String p1 (String m1 (String m2 (String p2
      (String y1 (String y2 (String y3 (String y4 EmptyString))))))))) =>
      is_decimal d1 && is_decimal d2 && lit "." p1
      && is_decimal m1 && is_decimal m2 && lit "." p2
      && is_decimal y1 && is_decimal y2 && is_decimal y3 && is_decimal y4
      && existing_date
           (number (String y1 (String y2 (String y3 (String y4 EmptyString)))))
           (number (String m1 (String m2 EmptyString)))
           (number (String d1 (String d2 EmptyString)))
  | _ => false
  end.

(** No full stop in [t]. *)
Definition no_dot (t : string) : bool :=
  all_chars (fun c => negb (lit "." c)) t.

(** ** Rendering and tokens *)

(** [sep.join(xs)] *)
Fixpoint join (sep : string) (xs : list string) : string :=
  match xs with
  | [] => EmptyString
  | [x] => x
  | x :: xs' => (x ++ sep ++ join sep xs')%string
  end.

(** [str(x)] for an optional field: [None] renders as its name. *)
Definition optional_str (f : option Field) : string :=
  match f with
  | Some b => Field_str b
  | None => "None"
  end.

(** [Record.__str__] *)
Definition Record_str (self : ContactRecord.t) : string :=
  ("Contact name: " ++ value (ContactRecord.name self)
   ++ ", phones: " ++ join "; " (map Field_str (ContactRecord.phones self))
   ++ ", birthday: " ++ optional_str (ContactRecord.birthday self))%string.

(** One character of [str.isspace]: tab to carriage return, the four
    separators U+001C..U+001F, the blank, U+0085 and U+00A0. *)
Definition char_isspace (c : ascii) : bool :=
  ((9 <=? code c) && (code c <=? 13))
  || ((28 <=? code c) && (code c <=? 32))
  || (code c =? 133) || (code c =? 160).

(** One character of [str.lower]: the letters A..Z and U+00C0..U+00DE,
    the multiplication sign apart, move 32 places up. *)
Definition char_lower (c : ascii) : ascii :=
  if ((65 <=? code c) && (code c <=? 90))
     || ((192 <=? code c) && (code c <=? 222) && negb (code c =? 215))
  then ascii_of_N (Z.to_N (code c + 32))
  else c.

Fixpoint lower (s : string) : string :=
  match s with
  | EmptyString => EmptyString
  | String c s' => String (char_lower c) (lower s')
  end.

Fixpoint str_lstrip (s : string) : string :=
  match s with
  | String c s' => if char_isspace c then str_lstrip s' else s
  | EmptyString => s
  end.

Fixpoint str_rstrip (s : string) : string :=
  match s with
  | String c s' =>
      match str_rstrip s' with
      | EmptyString => if char_isspace c then EmptyString
                       else String c EmptyString
      | t => String c t
      end
  | EmptyString => s
  end.

(** [s.strip()] *)
Definition strip (s : string) : string := str_rstrip (str_lstrip s).

(** The scan of [s.split()]: [word] holds the characters of the token
    being read; a run of white space ends it. *)
Fixpoint split_scan (s : string) (word : string) : list string :=
  match s with
  | EmptyString =>
      match word with
      | EmptyString => []
      | _ => [word]
      end
  | String c s' =>
      if char_isspace c then
        match word with
        | EmptyString => split_scan s' EmptyString
        | _ => word :: split_scan s' EmptyString
        end
      else split_scan s' (word ++ String c EmptyString)
  end.

(** [s.split()] *)
Definition split (s : string) : list string := split_scan s EmptyString.

(** No white space in [t]. *)
Definition no_space (t : string) : bool :=
  all_chars (fun c => negb (char_isspace c)) t.

(** A token: some characters, none of them white space. *)
Definition token (t : string) : Prop := t <> EmptyString /\ no_space t = true.

Definition newline : string := String (ascii_of_N 10) EmptyString.

(** ** The commands *)

Module Bot.

(** What can end a command: an exception of the core, an index out of
    range, or the end of the input. *)
Inductive failure : Type :=
| Raised (e : exn)
| IndexError (msg : string)
| EOFError.

(** The book of the session and what was written to the terminal so far,
    piece by piece. *)
Record console : Type := mkConsole {
  book : AddressBook.t;
  stdout : list string
}.

Definition Cmd (A : Type) : Type := console -> (failure + A) * console.

Definition cret {A : Type} (a : A) : Cmd A := fun w => (inr a, w).

Definition cbind {A B : Type} (m : Cmd A) (k : A -> Cmd B) : Cmd B :=
  fun w =>
    match m w with
    | (inl f, w') => (inl f, w')
    | (inr a, w') => k a w'
    end.

Definition craise {A : Type} (f : failure) : Cmd A := fun w => (inl f, w).

Notation "x <~ m ;; k" := (cbind m (fun x => k))
  (at level 61, m at next level, right associativity).

(** A method of the book. *)
Definition on_book {A : Type} (m : M AddressBook.t A) : Cmd A :=
  fun w =>
    match m (book w) with
    | (inl e, b) => (inl (Raised e), mkConsole b (stdout w))
    | (inr a, b) => (inr a, mkConsole b (stdout w))
    end.

(** A method of a record that no book holds yet: the record after the
    call. *)
Definition on_local (record : ContactRecord.t) (m : M ContactRecord.t unit)
    : Cmd ContactRecord.t :=
  fun w =>
    match m record with
    | (inl e, _) => (inl (Raised e), w)
    | (inr _, record') => (inr record', w)
    end.

(** A method of the record that the book holds under [key]: the book
    holds the object itself, so what the method does to it shows in the
    book, also when the method raises. *)
Definition on_record (key : string) (record : ContactRecord.t)
    (m : M ContactRecord.t unit) : Cmd ContactRecord.t :=
  fun w =>
    match m record with
    | (inl e, record') =>
        (inl (Raised e),
         mkConsole (dict_set (book w) key record') (stdout w))
    | (inr _, record') =>
        (inr record', mkConsole (dict_set (book w) key record') (stdout w))
    end.

(** [print(s)] *)
Definition print (s : string) : Cmd unit :=
  fun w => (inr tt, mkConsole (book w) (stdout w ++ [(s ++ newline)%string])).

(** The prompt of [input]. *)
Definition write (s : string) (w : console) : console :=
  mkConsole (book w) (stdout w ++ [s]).

(** [record.phones[0]] *)
Definition first_phone (record : ContactRecord.t) : Cmd Phone :=
  match ContactRecord.phones record with
  | p :: _ => cret p
  | [] => craise (IndexError "list index out of range")
  end.

(** [parse_input]: the unpacking needs one token at least. *)
Definition parse_input (user_input : string) : result (string * list string) :=
  match split user_input with
  | cmd :: args => inr (lower (strip cmd), args)
  | [] =>
      inl (ValueError
             "not enough values to unpack (expected at least 1, got 0)")
  end.

(** The decorator [input_error]: a [ValueError] of [func] becomes the text
    returned. [of_str] places a text among the values [func] returns. *)
Definition input_error {A : Type} (of_str : string -> A) (func : Cmd A)
    : Cmd A :=
  fun w =>
    match func w with
    | (inl (Raised (ValueError e)), w') =>
        (inr (of_str ("Error: " ++ e)%string), w')
    | r => r
    end.

Definition not_found (name : string) : failure :=
  Raised (ValueError ("Contact with name '" ++ name ++ "' not found.")).

Definition name_and_phone : failure :=
  Raised (ValueError "Invalid command. Please provide both name and phone.").

Definition name_only : failure :=
  Raised (ValueError "Invalid command. Please provide the name.").

Definition name_and_birthday : failure :=
  Raised
    (ValueError "Invalid command. Please provide both name and birthday.").

Definition add_contact (args : list string) : Cmd string :=
  input_error id
    match args with
    | [name; phone] =>
        record <~ on_local (ContactRecord.init name)
                    (ContactRecord.add_phone phone) ;;
        _ <~ on_book (AddressBook.add_record record) ;;
        cret ("Contact added: " ++ Record_str record)%string
    | _ => craise name_and_phone
    end.

Definition change_contact (args : list string) : Cmd string :=
  input_error id
    match args with
    | [name; phone] =>
        found <~ on_book (AddressBook.find name) ;;
        match found with
        | Some record =>
            p <~ first_phone record ;;
            record' <~ on_record name record
                         (ContactRecord.edit_phone (value p) phone) ;;
            cret ("Contact updated: " ++ Record_str record')%string
        | None => craise (not_found name)
        end
    | _ => craise name_and_phone
    end.

Definition show_phone (args : list string) : Cmd string :=
  input_error id
    match args with
    | [name] =>
        found <~ on_book (AddressBook.find name) ;;
        match found with
        | Some record =>
            p <~ first_phone record ;;
            cret ("Phone for " ++ name ++ ": " ++ Field_str p)%string
        | None => craise (not_found name)
        end
    | _ => craise name_only
    end.

Fixpoint print_records (items : list (string * ContactRecord.t)) : Cmd unit :=
  match items with
  | [] => cret tt
  | (_, record) :: items' =>
      _ <~ print (Record_str record) ;; print_records items'
  end.

(** [show_all] returns nothing after printing, and a text when the book is
    empty. *)
Definition show_all : Cmd (option string) :=
  input_error Some
    (fun w =>
       match book w with
       | [] => cret (Some "No contacts available.") w
       | items => (_ <~ print_records items ;; cret None) w
       end).

Definition add_birthday (args : list string) : Cmd string :=
  input_error id
    match args with
    | [name; birthday] =>
        found <~ on_book (AddressBook.find name) ;;
        match found with
        | Some record =>
            record' <~ on_record name record
                         (ContactRecord.add_birthday birthday) ;;
            cret ("Birthday added for " ++ name ++ ": "
                  ++ optional_str (ContactRecord.birthday record'))%string
        | None => craise (not_found name)
        end
    | _ => craise name_and_birthday
    end.

Definition show_birthday (args : list string) : Cmd string :=
  input_error id
    match args with
    | [name] =>
        found <~ on_book (AddressBook.find name) ;;
        match found with
        | Some record =>
            cret ("Birthday for " ++ name ++ ": "
                  ++ optional_str (ContactRecord.birthday record))%string
        | None => craise (not_found name)
        end
    | _ => craise name_only
    end.

(** [today] stands for what [datetime.today()] returns during the call. *)
Definition birthdays (today : datetime) : Cmd string :=
  input_error id
    (upcoming_birthdays <~
       on_book (AddressBook.get_birthdays_per_week today) ;;
     match upcoming_birthdays with
     | [] => cret "No upcoming birthdays in the next week."
     | _ =>
         cret ("Upcoming birthdays:" ++ newline
               ++ join newline upcoming_birthdays)%string
     end).

(** The branches of the loop of [main] for one command; the value tells
    whether the loop is left. *)
Definition dispatch (command : string) (args : list string)
    (today : datetime) : Cmd bool :=
  if String.eqb command "close" || String.eqb command "exit" then
    _ <~ print "Good bye!" ;; cret true
  else if String.eqb command "hello" then
    _ <~ print "How can I help you?" ;; cret false
  else if String.eqb command "add" then
    s <~ add_contact args ;; _ <~ print s ;; cret false
  else if String.eqb command "change" then
    s <~ change_contact args ;; _ <~ print s ;; cret false
  else if String.eqb command "phone" then
    s <~ show_phone args ;; _ <~ print s ;; cret false
  else if String.eqb command "all" then
    _ <~ show_all ;; cret false
  else if String.eqb command "add-birthday" then
    s <~ add_birthday args ;; _ <~ print s ;; cret false
  else if String.eqb command "show-birthday" then
    s <~ show_birthday args ;; _ <~ print s ;; cret false
  else if String.eqb command "birthdays" then
    s <~ birthdays today ;; _ <~ print s ;; cret false
  else
    _ <~ print "Invalid command." ;; cret false.

(** The [try] of the loop: a [ValueError] is printed and the loop goes
    on. *)
Definition guarded (body : Cmd bool) : Cmd bool :=
  fun w =>
    match body w with
    | (inl (Raised (ValueError e)), w') =>
        (_ <~ print ("Error: " ++ e) ;; cret false) w'
    | r => r
    end.

(** How the program ends. *)
Inductive ending : Type :=
| Exited
| Crashed (f : failure).

(** The loop of [main] over the lines typed, each with the time at which
    it is handled. When the lines run out, [input] raises. *)
Fixpoint main_loop (inputs : list (string * datetime)) (w : console)
    : ending * console :=
  match inputs with
  | [] => (Crashed EOFError, write "Enter a command: " w)
  | (user_input, today) :: inputs' =>
      let w1 := write "Enter a command: " w in
      match parse_input user_input with
      | inl e => (Crashed (Raised e), w1)
      | inr (command, args) =>
          match guarded (dispatch command args today) w1 with
          | (inl f, w2) => (Crashed f, w2)
          | (inr true, w2) => (Exited, w2)
          | (inr false, w2) => main_loop inputs' w2
          end
      end
  end.

Definition main (inputs : list (string * datetime)) : ending * console :=
  match print "Welcome to the assistant bot!"
          (mkConsole AddressBook.empty []) with
  | (_, w) => main_loop inputs w
  end.

(** The [ValueError] of an unpacking with nothing to unpack. *)
Definition unpack_error : exn :=
  ValueError "not enough values to unpack (expected at least 1, got 0)".

(** What the commands keep of a book: one entry per name, each under the
    name of its record, each with a phone, each birthday built by
    [Birthday]. *)
Definition book_ok (b : AddressBook.t) : Prop :=
  dict_ok b /\
  (forall (k : string) (r : ContactRecord.t),
     In (k, r) b ->
     value (ContactRecord.name r) = k /\ ContactRecord.phones r <> []) /\
  birthdays_built b.

End Bot.

(** ** Phones *)

Lemma all_chars_Forall (p : ascii -> bool) (s : string) :
  all_chars p s = true <->
  Forall (fun c => p c = true) (list_ascii_of_string s).
Proof.
  induction s as [|c s IH]; simpl.
  - split; [constructor | reflexivity].
  - rewrite andb_true_iff, IH. split.
    + intros [Hc Hs]. now constructor.
    + intros H. inversion H; subst. now split.
Qed.

Lemma len_10 (s : string) : (len s =? 10) = true <-> String.length s = 10%nat.
Proof. unfold len. rewrite Z.eqb_eq. lia. Qed.

Lemma isdigit_all_chars (s : string) :
  String.length s = 10%nat -> isdigit s = all_chars char_isdigit s.
Proof. destruct s; [discriminate | reflexivity]. Qed.

Lemma Phone_check_iff (s : string) :
  isdigit s && (len s =? 10) = true <-> ten_digits s.
Proof.
  unfold ten_digits. rewrite andb_true_iff, len_10. split.
  - intros [Hd Hl]. split; [exact Hl |].
    apply all_chars_Forall. now rewrite <- isdigit_all_chars.
  - intros [Hl Hd]. split; [| exact Hl].
    rewrite isdigit_all_chars by exact Hl. now apply all_chars_Forall.
Qed.

Lemma Phone_init_accepts (s : string) :
  ten_digits s -> Phone_init s = inr (mkField s).
Proof.
  intros H. apply Phone_check_iff in H. unfold Phone_init.
  now rewrite H.
Qed.

Lemma Phone_init_rejects (s : string) :
  ~ ten_digits s -> Phone_init s = inl phone_error.
Proof.
  intros H. unfold Phone_init.
  destruct (isdigit s && (len s =? 10)) eqn:E; [| reflexivity].
  apply Phone_check_iff in E. contradiction.
Qed.

Lemma ten_digits_dec (s : string) : {ten_digits s} + {~ ten_digits s}.
Proof.
  destruct (isdigit s && (len s =? 10)) eqn:E.
  - left. now apply Phone_check_iff.
  - right. intros H. apply Phone_check_iff in H. congruence.
Qed.

Lemma ten_ascii_digits_ten_digits (s : string) :
  ten_ascii_digits s -> ten_digits s.
Proof.
  intros [Hl Hd]. split; [exact Hl |].
  eapply Forall_impl; [| exact Hd].
  intros c Hc. unfold char_isdigit. now rewrite Hc.
Qed.

(** C4, as the code has it: [Phone(s)] succeeds exactly when [s] has ten
    characters that [str.isdigit] takes for digits, the ten ASCII digits
    among them; the phone built then renders as [s], and every other [s]
    is refused with the [ValueError] of the phone format. *)
Theorem Phone_init_spec (s : string) :
  (Phone_init s = inr (mkField s) <-> ten_digits s) /\
  (Phone_init s = inl phone_error <-> ~ ten_digits s) /\
  (ten_ascii_digits s -> Phone_init s = inr (mkField s)) /\
  (forall p : Phone, Phone_init s = inr p -> Field_str p = s).
Proof.
  destruct (ten_digits_dec s) as [H | H].
  - pose proof (Phone_init_accepts s H) as E. rewrite E.
    split; [tauto |]. split; [split; [discriminate | tauto] |].
    split; [reflexivity |].
    intros p Hp. now inversion Hp.
  - pose proof (Phone_init_rejects s H) as E. rewrite E.
    split; [split; [discriminate | tauto] |]. split; [tauto |].
    split; [| discriminate].
    intros Ha. apply ten_ascii_digits_ten_digits in Ha. contradiction.
Qed.

Lemma Phone_init_spec_witness :
  Phone_init "0123456789" = inr (mkField "0123456789") /\
  Phone_init "12345" = inl phone_error.
Proof.
  split.
  - apply (Phone_init_spec "0123456789").
    split; [reflexivity | repeat constructor].
  - apply (Phone_init_spec "12345").
    intros [Hl _]. vm_compute in Hl. discriminate.
Defined.

(** C4, as the specification words it, fails: ten superscript twos are no
    ASCII digits, and [Phone] takes them. *)
Lemma Phone_init_superscripts :
  ~ (forall s : string,
       (exists p : Phone, Phone_init s = inr p) <-> ten_ascii_digits s).
Proof.
  intros H. destruct (H ten_superscripts) as [H1 _].
  destruct H1 as [_ Hd]; [eexists; reflexivity |].
  inversion Hd as [| c l Hc _]. vm_compute in Hc. discriminate.
Qed.

(** ** Records *)

Import ContactRecord.

(** C8, as the code has it: [add_phone] with a text that [Phone] refuses,
    one that is not ten characters that [str.isdigit] takes for digits,
    raises the [ValueError] of the phone format and leaves the record, its
    phone list included, as it was. *)
Theorem add_phone_invalid (r : ContactRecord.t) (raw : string) :
  ~ ten_digits raw ->
  add_phone raw r = (inl phone_error, r) /\
  phones (snd (add_phone raw r)) = phones r.
Proof.
  intros H. unfold add_phone, bind, lift.
  rewrite (Phone_init_rejects raw H). split; reflexivity.
Qed.

Lemma add_phone_invalid_witness :
  add_phone "12345" (mk (mkField "Bob") [mkField "0123456789"] None)
  = (inl phone_error, mk (mkField "Bob") [mkField "0123456789"] None).
Proof.
  apply (add_phone_invalid (mk (mkField "Bob") [mkField "0123456789"] None)
           "12345").
  intros [Hl _]. vm_compute in Hl. discriminate.
Defined.

(** C8, as the specification words it, fails: ten superscript twos are
    not ten ASCII digits, and [add_phone] takes them, raises nothing and
    appends them to the phones. *)
Lemma add_phone_superscripts :
  ~ ten_ascii_digits ten_superscripts /\
  add_phone ten_superscripts (mk (mkField "Bob") [mkField "0123456789"] None)
  = (inr tt,
     mk (mkField "Bob") [mkField "0123456789"; mkField ten_superscripts]
        None) /\
  ~ (forall (r : ContactRecord.t) (raw : string),
       ~ ten_ascii_digits raw ->
       add_phone raw r = (inl phone_error, r) /\
       phones (snd (add_phone raw r)) = phones r).
Proof.
  assert (Hn : ~ ten_ascii_digits ten_superscripts).
  { intros [_ Hd]. inversion Hd as [| c l Hc _]. vm_compute in Hc.
    discriminate. }
  split; [exact Hn |]. split; [reflexivity |].
  intros H.
  destruct (H (mk (mkField "Bob") [mkField "0123456789"] None)
              ten_superscripts Hn) as [E _].
  vm_compute in E. discriminate.
Qed.

Lemma add_phone_valid (r : ContactRecord.t) (raw : string) :
  ten_digits raw ->
  add_phone raw r
  = (inr tt, mk (name r) (phones r ++ [mkField raw]) (birthday r)).
Proof.
  intros H. unfold add_phone, bind, lift.
  now rewrite (Phone_init_accepts raw H).
Qed.

(** [edit_phone] builds no [Phone]: it raises nothing, whatever the new
    text is. *)
Lemma edit_phone_never_raises (r : ContactRecord.t) (old new : string) :
  fst (edit_phone old new r) = inr tt.
Proof. reflexivity. Qed.

(** C2 on the code: the record holding the phone 1234567890, asked to
    replace it by the text abc, which [Phone] refuses, raises nothing and
    now holds abc; and no call of [edit_phone] raises. *)
Theorem edit_phone_skips_validation :
  Phone_init "abc" = inl phone_error /\
  edit_phone "1234567890" "abc"
    (mk (mkField "Alice") [mkField "1234567890"] None)
  = (inr tt, mk (mkField "Alice") [mkField "abc"] None) /\
  (forall (r : ContactRecord.t) (old new : string),
     fst (edit_phone old new r) = inr tt).
Proof.
  split; [reflexivity |]. split; [reflexivity |].
  intros r old new. apply edit_phone_never_raises.
Qed.

Lemma edit_first_absent (old new : string) (ps : list Phone) :
  ~ In old (phone_values ps) -> edit_first old new ps = ps.
Proof.
  induction ps as [|p ps IH]; simpl; intros H; [reflexivity |].
  destruct (String.eqb_spec (value p) old) as [E | E].
  - exfalso. apply H. now left.
  - rewrite IH; [reflexivity |]. intros Hin. apply H. now right.
Qed.

Lemma edit_first_present (old new : string) (ps : list Phone) :
  In old (phone_values ps) ->
  exists (l1 : list Phone) (p : Phone) (l2 : list Phone),
    ps = (l1 ++ p :: l2)%list /\
    value p = old /\
    ~ In old (phone_values l1) /\
    edit_first old new ps = (l1 ++ mkField new :: l2)%list.
Proof.
  induction ps as [|q ps IH]; simpl; intros H; [contradiction |].
  destruct (String.eqb_spec (value q) old) as [E | E].
  - exists [], q, ps. repeat split; auto.
  - destruct H as [H | H]; [contradiction |].
    destruct (IH H) as (l1 & p & l2 & Hps & Hp & Hl1 & Hed).
    exists (q :: l1), p, l2. subst ps. repeat split; auto.
    + simpl. intros [Hq | Hq]; [contradiction | now apply Hl1].
    + simpl. now rewrite Hed.
Qed.

(** C6: when some phone of the record has the value [old], [edit_phone]
    changes the first such entry, and only it, to [new]: the entries
    before and after it stay, in their order; when none has, the record is
    left as it was and nothing is raised. *)
Theorem edit_phone_first (r : ContactRecord.t) (old new : string) :
  (In old (phone_values (phones r)) ->
   exists (l1 : list Phone) (p : Phone) (l2 : list Phone),
     phones r = (l1 ++ p :: l2)%list /\
     value p = old /\
     ~ In old (phone_values l1) /\
     edit_phone old new r
     = (inr tt, mk (name r) (l1 ++ mkField new :: l2) (birthday r))) /\
  (~ In old (phone_values (phones r)) ->
   edit_phone old new r = (inr tt, r)).
Proof.
  split; intros H.
  - destruct (edit_first_present old new (phones r) H)
      as (l1 & p & l2 & Hps & Hp & Hl1 & Hed).
    exists l1, p, l2. repeat split; auto.
    unfold edit_phone, bind, get, set_phones. now rewrite Hed.
  - unfold edit_phone, bind, get, set_phones.
    rewrite (edit_first_absent old new (phones r) H). now destruct r.
Qed.

Lemma edit_phone_first_witness :
  exists (l1 : list Phone) (p : Phone) (l2 : list Phone),
    [mkField "a"; mkField "b"; mkField "c"; mkField "b"]
    = (l1 ++ p :: l2)%list /\
    value p = "b" /\
    ~ In "b" (phone_values l1) /\
    edit_phone "b" "z"
      (mk (mkField "Ann")
          [mkField "a"; mkField "b"; mkField "c"; mkField "b"] None)
    = (inr tt, mk (mkField "Ann") (l1 ++ mkField "z" :: l2) None).
Proof.
  apply (edit_phone_first
           (mk (mkField "Ann")
               [mkField "a"; mkField "b"; mkField "c"; mkField "b"] None)
           "b" "z").
  simpl. right. left. reflexivity.
Defined.

Example edit_phone_first_of_two :
  edit_phone "b" "z"
    (mk (mkField "Ann")
        [mkField "a"; mkField "b"; mkField "c"; mkField "b"] None)
  = (inr tt,
     mk (mkField "Ann")
        [mkField "a"; mkField "z"; mkField "c"; mkField "b"] None).
Proof. reflexivity. Qed.

(** ** Dictionaries *)

Section DictFacts.

Context {V : Type}.
Implicit Types (d : dict V) (k : string) (v : V).

Lemma dict_get_In d k v : dict_get d k = Some v -> In (k, v) d.
Proof.
  induction d as [|[k' v'] d IH]; simpl; [discriminate |].
  destruct (String.eqb_spec k' k) as [E | E].
  - intros H. inversion H; subst. now left.
  - intros H. right. now apply IH.
Qed.

Lemma dict_get_None d k : dict_get d k = None <-> ~ In k (dict_keys d).
Proof.
  induction d as [|[k' v'] d IH]; simpl; [tauto |].
  destruct (String.eqb_spec k' k) as [E | E].
  - split; [discriminate | intros H; exfalso; apply H; now left].
  - rewrite IH. tauto.
Qed.

Lemma In_keys d k v : In (k, v) d -> In k (dict_keys d).
Proof. intros H. apply (in_map fst) in H. exact H. Qed.

Lemma In_dict_get d k v : dict_ok d -> In (k, v) d -> dict_get d k = Some v.
Proof.
  unfold dict_ok.
  induction d as [|[k' v'] d IH]; simpl; intros Hok Hin; [contradiction |].
  inversion Hok as [| ? ? Hnot Hok']; subst.
  destruct Hin as [Hin | Hin].
  - inversion Hin; subst. now rewrite String.eqb_refl.
  - destruct (String.eqb_spec k' k) as [E | E].
    + subst k'. exfalso. apply Hnot. eapply In_keys; eauto.
    + now apply IH.
Qed.

Lemma dict_get_set d k v : dict_get (dict_set d k v) k = Some v.
Proof.
  induction d as [|[k' v'] d IH]; simpl.
  - now rewrite String.eqb_refl.
  - destruct (String.eqb_spec k' k) as [E | E]; simpl.
    + subst. now rewrite String.eqb_refl.
    + destruct (String.eqb_spec k' k); [contradiction | exact IH].
Qed.

Lemma dict_get_set_other d k k' v :
  k' <> k -> dict_get (dict_set d k v) k' = dict_get d k'.
Proof.
  intros Hne. induction d as [|[k0 v0] d IH]; simpl.
  - destruct (String.eqb_spec k k'); [congruence | reflexivity].
  - destruct (String.eqb_spec k0 k) as [E | E]; simpl.
    + subst k0. destruct (String.eqb_spec k k'); [congruence | reflexivity].
    + destruct (String.eqb_spec k0 k'); [reflexivity | exact IH].
Qed.

Lemma dict_keys_set d k v :
  dict_keys (dict_set d k v)
  = if dict_contains d k then dict_keys d else (dict_keys d ++ [k])%list.
Proof.
  unfold dict_contains.
  induction d as [|[k' v'] d IH]; simpl; [reflexivity |].
  destruct (String.eqb_spec k' k) as [E | E]; simpl.
  - now subst.
  - rewrite IH. now destruct (dict_get d k).
Qed.

Lemma dict_set_ok d k v : dict_ok d -> dict_ok (dict_set d k v).
Proof.
  unfold dict_ok. intros Hok. rewrite dict_keys_set.
  unfold dict_contains. destruct (dict_get d k) eqn:E; [exact Hok |].
  apply dict_get_None in E.
  apply NoDup_rev in Hok. rewrite <- (rev_involutive (_ ++ _)).
  apply NoDup_rev. rewrite rev_app_distr. simpl.
  constructor; [| exact Hok].
  intros Hin. apply E. now apply in_rev.
Qed.

(** Overwriting keeps the other items and their order. *)
Lemma dict_set_set d k v v' :
  dict_set (dict_set d k v) k v' = dict_set d k v'.
Proof.
  induction d as [|[k0 v0] d IH]; simpl.
  - now rewrite String.eqb_refl.
  - destruct (String.eqb_spec k0 k) as [E | E]; simpl.
    + subst. now rewrite String.eqb_refl.
    + destruct (String.eqb_spec k0 k); [contradiction | now rewrite IH].
Qed.

Lemma dict_del_absent d k : ~ In k (dict_keys d) -> dict_del d k = d.
Proof.
  induction d as [|[k' v'] d IH]; simpl; intros H; [reflexivity |].
  destruct (String.eqb_spec k' k) as [E | E].
  - exfalso. apply H. now left.
  - rewrite IH; [reflexivity | tauto].
Qed.

Lemma dict_keys_del d k :
  dict_ok d -> ~ In k (dict_keys (dict_del d k)).
Proof.
  unfold dict_ok.
  induction d as [|[k' v'] d IH]; simpl; intros Hok; [tauto |].
  inversion Hok as [| ? ? Hnot Hok']; subst.
  destruct (String.eqb_spec k' k) as [E | E].
  - now subst.
  - simpl. intros [H | H]; [contradiction | now apply IH].
Qed.

Lemma dict_del_ok d k : dict_ok d -> dict_ok (dict_del d k).
Proof.
  unfold dict_ok.
  induction d as [|[k' v'] d IH]; simpl; intros Hok; [constructor |].
  inversion Hok as [| ? ? Hnot Hok']; subst.
  destruct (String.eqb_spec k' k) as [E | E]; [exact Hok' |].
  simpl. constructor; [| now apply IH].
  intros Hin. apply Hnot. clear - Hin.
  induction d as [|[k0 v0] d IHd]; simpl in *; [contradiction |].
  destruct (String.eqb k0 k); simpl in *; tauto.
Qed.

End DictFacts.

(** ** The address book *)

Import AddressBook.

Lemma add_record_run (book : AddressBook.t) (r : ContactRecord.t) :
  add_record r book = (inr tt, dict_set book (value (name r)) r).
Proof. reflexivity. Qed.

Lemma find_run (book : AddressBook.t) (n : string) :
  find n book = (inr (dict_get book n), book).
Proof. reflexivity. Qed.

Lemma add_record_ok (book : AddressBook.t) (r : ContactRecord.t) :
  dict_ok book -> dict_ok (snd (add_record r book)).
Proof. intros H. rewrite add_record_run. now apply dict_set_ok. Qed.

Lemma delete_ok (book : AddressBook.t) (n : string) :
  dict_ok book -> dict_ok (snd (delete n book)).
Proof.
  intros H. unfold delete, bind, get.
  destruct (dict_contains book n); simpl; [now apply dict_del_ok | exact H].
Qed.

(** C5: after [add_record r], [find] with the name of [r] returns [r]
    itself, whose name is that name; and two records of one name added in
    turn raise nothing and leave the book that adding the second alone
    leaves: the name is mapped to the second record and to nothing else. *)
Theorem add_record_find (book : AddressBook.t) (r r1 r2 : ContactRecord.t) :
  fst ((add_record r ;;; find (value (name r))) book) = inr (Some r) /\
  (value (name r1) = value (name r2) ->
   dict_ok book ->
   fst ((add_record r1 ;;; add_record r2) book) = inr tt /\
   snd ((add_record r1 ;;; add_record r2) book) = snd (add_record r2 book) /\
   fst ((add_record r1 ;;; add_record r2 ;;; find (value (name r2))) book)
   = inr (Some r2) /\
   (forall r' : ContactRecord.t,
      In (value (name r2), r') (snd ((add_record r1 ;;; add_record r2) book))
      <-> r' = r2)).
Proof.
  split.
  - unfold bind. rewrite add_record_run, find_run. simpl.
    now rewrite dict_get_set.
  - intros Hn Hok. unfold bind. rewrite !add_record_run, find_run. simpl.
    rewrite Hn, dict_set_set, dict_get_set.
    repeat split; auto.
    + intros Hin. apply In_dict_get in Hin; [| now apply dict_set_ok].
      rewrite dict_get_set in Hin. now inversion Hin.
    + intros ->. apply dict_get_In. apply dict_get_set.
Qed.

Lemma add_record_find_witness :
  snd ((add_record (mk (mkField "Ann") [mkField "0123456789"] None) ;;;
        add_record (mk (mkField "Ann") [mkField "9876543210"] None))
         AddressBook.empty)
  = snd (add_record (mk (mkField "Ann") [mkField "9876543210"] None)
           AddressBook.empty).
Proof.
  apply (add_record_find AddressBook.empty
           (mk (mkField "Ann") [mkField "0123456789"] None)
           (mk (mkField "Ann") [mkField "0123456789"] None)
           (mk (mkField "Ann") [mkField "9876543210"] None)).
  - reflexivity.
  - constructor.
Defined.

(** C7: [find] raises nothing, changes nothing and returns what the book
    holds under exactly that name, or [None]; the names are compared as
    they are written, upper and lower case apart; [delete] of a name the
    book does not hold changes nothing; and after [delete], [find] returns
    [None]. *)
Theorem find_delete (book : AddressBook.t) (n : string) :
  find n book = (inr (dict_get book n), book) /\
  (forall r : ContactRecord.t,
     fst (find n book) = inr (Some r) -> In (n, r) book) /\
  (fst (find n book) = inr None <-> ~ In n (dict_keys book)) /\
  fst ((add_record (ContactRecord.init "Alice") ;;; find "alice")
         AddressBook.empty) = inr None /\
  (~ In n (dict_keys book) -> delete n book = (inr tt, book)) /\
  (dict_ok book ->
   fst ((delete n ;;; find n) book) = inr None).
Proof.
  split; [reflexivity |].
  split; [| split; [| split; [reflexivity | split]]].
  - intros r H. rewrite find_run in H. simpl in H.
    apply dict_get_In. now inversion H.
  - rewrite find_run. simpl. rewrite <- dict_get_None.
    split; [intros H; now inversion H | intros ->; reflexivity].
  - intros H. unfold delete, bind, get, dict_contains.
    apply dict_get_None in H. now rewrite H.
  - intros Hok. unfold delete, bind, get, dict_contains.
    destruct (dict_get book n) eqn:E; simpl.
    + f_equal. apply dict_get_None. now apply dict_keys_del.
    + now rewrite E.
Qed.

Lemma find_delete_witness :
  delete "Eve" [("Ann", mk (mkField "Ann") [] None);
                ("Bob", mk (mkField "Bob") [] None)]
  = (inr tt, [("Ann", mk (mkField "Ann") [] None);
              ("Bob", mk (mkField "Bob") [] None)]) /\
  fst ((delete "Ann" ;;; find "Ann")
         [("Ann", mk (mkField "Ann") [] None);
          ("Bob", mk (mkField "Bob") [] None)]) = inr None.
Proof.
  split.
  - apply (find_delete [("Ann", mk (mkField "Ann") [] None);
                        ("Bob", mk (mkField "Bob") [] None)] "Eve").
    simpl. intros [H | [H | H]]; [discriminate | discriminate | exact H].
  - apply (find_delete [("Ann", mk (mkField "Ann") [] None);
                        ("Bob", mk (mkField "Bob") [] None)] "Ann").
    repeat constructor; simpl; intros H; intuition discriminate.
Defined.

Lemma birthday_step_state (a b : datetime) (item : string * ContactRecord.t)
    (acc : list string) (book : AddressBook.t) :
  snd (birthday_step a b item acc book) = book.
Proof.
  unfold birthday_step. destruct item as [n r].
  destruct (birthday r) as [f |]; [| reflexivity].
  unfold bind, lift. destruct (strptime (value f)) as [e | d]; [reflexivity |].
  now destruct (datetime_le a d && datetime_le d b).
Qed.

Lemma for_each_state (a b : datetime) (items : list (string * ContactRecord.t))
    (acc : list string) (book : AddressBook.t) :
  snd (for_each items (birthday_step a b) acc book) = book.
Proof.
  revert acc. induction items as [|item items IH]; intros acc; [reflexivity |].
  simpl. unfold bind.
  pose proof (birthday_step_state a b item acc book) as Hs.
  destruct (birthday_step a b item acc book) as [[e | acc'] book'];
    simpl in Hs; subst book'; [reflexivity | apply IH].
Qed.

(** C10: whatever the day and the book, and whether it returns or raises,
    [get_birthdays_per_week] leaves the book as it was: the same names
    mapped to the same records, each with its name, phones and birthday. *)
Theorem get_birthdays_per_week_frame (today : datetime)
    (book : AddressBook.t) :
  snd (get_birthdays_per_week today book) = book.
Proof.
  unfold get_birthdays_per_week, bind, lift, get.
  destruct (datetime_add_days today _) as [e | s]; [reflexivity |].
  destruct (datetime_add_days s 6) as [e | f]; [reflexivity |].
  apply for_each_state.
Qed.

(** ** The birthdays of the coming week *)

Lemma weekday_range (d : datetime) : 0 <= weekday d <= 6.
Proof. unfold weekday. pose proof (Z.mod_pos_bound (toordinal d + 6) 7). lia. Qed.

(** The first day of the window is a Sunday. *)
Lemma windowStart_weekday (today : datetime) : weekday (windowStart today) = 6.
Proof.
  unfold windowStart, plus_days, daysUntilNextMonday, weekday.
  cbn [toordinal].
  pose proof (Z.div_mod (toordinal today + 6) 7 ltac:(lia)) as H.
  set (q := (toordinal today + 6) / 7) in *.
  set (m := (toordinal today + 6) mod 7) in *.
  assert (E : toordinal today + (6 - m + 7) + 6 = 6 + (q + 1) * 7) by lia.
  rewrite E, Z.mod_add by lia. reflexivity.
Qed.

Lemma Birthday_init_strptime (v : string) (b : Birthday) :
  Birthday_init v = inr b -> exists d : datetime, strptime v = inr d.
Proof.
  unfold Birthday_init. destruct (strptime v) as [[m | m] | d]; try discriminate.
  intros _. now exists d.
Qed.

Lemma datetime_add_days_ok (d : datetime) (n : Z) :
  0 < toordinal d + n <= MAXORDINAL ->
  datetime_add_days d n = inr (plus_days d n).
Proof.
  intros [Hlo Hhi]. unfold datetime_add_days.
  apply Z.ltb_lt in Hlo. apply Z.leb_le in Hhi. now rewrite Hlo, Hhi.
Qed.

Lemma window_no_overflow (today : datetime) :
  1 <= toordinal today -> toordinal (windowEnd today) <= MAXORDINAL ->
  datetime_add_days today ((6 - weekday today) + 7) = inr (windowStart today)
  /\ datetime_add_days (windowStart today) 6 = inr (windowEnd today).
Proof.
  intros Hlo Hhi. pose proof (weekday_range today) as Hw.
  unfold windowEnd, windowStart, daysUntilNextMonday in *.
  unfold plus_days in Hhi. cbn [toordinal] in Hhi.
  split; apply datetime_add_days_ok; unfold plus_days; cbn [toordinal]; lia.
Qed.

Lemma for_each_upcoming (today : datetime)
    (items : list (string * ContactRecord.t)) (acc : list string)
    (book : AddressBook.t) :
  birthdays_built items ->
  fst (for_each items (birthday_step (windowStart today) (windowEnd today))
         acc book)
  = inr (acc ++ upcomingBirthdays today items)%list.
Proof.
  revert acc. induction items as [|[n r] items IH]; intros acc Hb; simpl.
  - now rewrite app_nil_r.
  - assert (Hb' : birthdays_built items).
    { intros n' r' b' Hin. apply (Hb n' r' b'). now right. }
    unfold bind.
    pose proof (birthday_step_state (windowStart today) (windowEnd today)
                  (n, r) acc book) as Hs.
    unfold upcoming_line. simpl.
    unfold birthday_step in *.
    destruct (birthday r) as [b |] eqn:Eb.
    + destruct (Birthday_init_strptime (value b) b) as [d Hd].
      { apply (Hb n r b); [now left | exact Eb]. }
      unfold bind, lift in *. rewrite Hd in *. fold (in_window today d) in *.
      destruct (in_window today d); simpl.
      * rewrite IH by exact Hb'. now rewrite <- app_assoc.
      * now rewrite IH by exact Hb'.
    + simpl. now rewrite IH by exact Hb'.
Qed.

Lemma upcomingBirthdays_In (today : datetime) (book : AddressBook.t)
    (line : string) :
  In line (upcomingBirthdays today book) <->
  exists (n : string) (r : ContactRecord.t) (b : Birthday) (d : datetime),
    In (n, r) book /\ birthday r = Some b /\ strptime (value b) = inr d /\
    datetime_le (windowStart today) d = true /\
    datetime_le d (windowEnd today) = true /\
    line = (n ++ ": " ++ value b)%string.
Proof.
  unfold upcomingBirthdays. rewrite in_flat_map. split.
  - intros [[n r] [Hin Hl]]. unfold upcoming_line in Hl. simpl in Hl.
    destruct (birthday r) as [b |] eqn:Eb; [| contradiction].
    destruct (strptime (value b)) as [e | d] eqn:Ed; [contradiction |].
    destruct (in_window today d) eqn:Ew; [| contradiction].
    destruct Hl as [Hl | []]. apply andb_true_iff in Ew.
    exists n, r, b, d. intuition.
  - intros (n & r & b & d & Hin & Eb & Ed & H1 & H2 & ->).
    exists (n, r). split; [exact Hin |].
    unfold upcoming_line, in_window. simpl. rewrite Eb, Ed, H1, H2.
    now left.
Qed.

(** The window on instants: for a moment whose window the calendar can
    hold and a book whose birthdays were built by [Birthday],
    [get_birthdays_per_week] returns the lines [name: birthday] of exactly
    the records with a birthday whose midnight lies between that moment
    plus (6 - weekday) + 7 days and six days later, both ends included;
    the lines come in the order of the book, and there is none when no
    record matches. *)
Theorem get_birthdays_per_week_window (today : datetime)
    (book : AddressBook.t) :
  1 <= toordinal today ->
  toordinal (windowEnd today) <= MAXORDINAL ->
  birthdays_built book ->
  fst (get_birthdays_per_week today book)
  = inr (upcomingBirthdays today book) /\
  toordinal (windowStart today)
  = toordinal today + ((6 - weekday today) + 7) /\
  toordinal (windowEnd today) = toordinal (windowStart today) + 6 /\
  (forall line : string,
     In line (upcomingBirthdays today book) <->
     exists (n : string) (r : ContactRecord.t) (b : Birthday) (d : datetime),
       In (n, r) book /\ birthday r = Some b /\ strptime (value b) = inr d /\
       datetime_le (windowStart today) d = true /\
       datetime_le d (windowEnd today) = true /\
       line = (n ++ ": " ++ value b)%string) /\
  (forall book1 book2 : AddressBook.t,
     book = (book1 ++ book2)%list ->
     upcomingBirthdays today book
     = (upcomingBirthdays today book1 ++ upcomingBirthdays today book2)%list) /\
  ((forall item, In item book -> upcoming_line today item = None) ->
   fst (get_birthdays_per_week today book) = inr []).
Proof.
  intros Hlo Hhi Hb.
  assert (Hrun : fst (get_birthdays_per_week today book)
                 = inr (upcomingBirthdays today book)).
  { destruct (window_no_overflow today Hlo Hhi) as [Hs He].
    unfold get_birthdays_per_week, bind, lift, get. rewrite Hs, He.
    now rewrite for_each_upcoming. }
  split; [exact Hrun |].
  split; [reflexivity |]. split; [reflexivity |].
  split; [apply upcomingBirthdays_In |].
  split.
  - intros b1 b2 ->. unfold upcomingBirthdays. apply flat_map_app.
  - intros Hnone. rewrite Hrun. f_equal.
    unfold upcomingBirthdays. clear - Hnone.
    induction book as [|item book IH]; [reflexivity |].
    simpl. rewrite (Hnone item) by now left.
    simpl. apply IH. intros i Hi. apply Hnone. now right.
Qed.

(** ** Birthdays *)

(** *** Characters *)

Lemma code_inj (a b : ascii) : code a = code b -> a = b.
Proof.
  unfold code. intros H. apply N2Z.inj in H.
  rewrite <- (ascii_N_embedding a), <- (ascii_N_embedding b). now rewrite H.
Qed.

Lemma lit_true (x c : ascii) : lit x c = true -> c = x.
Proof. unfold lit. intros H. apply Z.eqb_eq in H. now apply code_inj. Qed.

Lemma is_decimal_cases (c : ascii) :
  is_decimal c = true ->
  c = "0"%char \/ c = "1"%char \/ c = "2"%char \/ c = "3"%char \/
  c = "4"%char \/ c = "5"%char \/ c = "6"%char \/ c = "7"%char \/
  c = "8"%char \/ c = "9"%char.
Proof.
  destruct c as [[] [] [] [] [] [] [] []]; intros H;
    vm_compute in H; try discriminate H; tauto.
Qed.

Lemma is_decimal_bounds (c : ascii) :
  is_decimal c = true -> 48 <= code c <= 57.
Proof. unfold is_decimal. rewrite andb_true_iff, !Z.leb_le. tauto. Qed.

Lemma is_decimal_not_dot (c : ascii) :
  is_decimal c = true -> lit "." c = false.
Proof.
  intros H. apply is_decimal_bounds in H. unfold lit.
  apply Z.eqb_neq. change (code ".") with 46. lia.
Qed.

Lemma is_decimal_not_blank (c : ascii) :
  is_decimal c = true -> (code c =? 32) = false.
Proof. intros H. apply is_decimal_bounds in H. apply Z.eqb_neq. lia. Qed.

(** A range of digits holds digits only. *)
Lemma range_decimal (lo hi c : ascii) :
  is_decimal lo = true -> is_decimal hi = true ->
  range lo hi c = true -> is_decimal c = true.
Proof.
  intros Hlo Hhi. apply is_decimal_bounds in Hlo, Hhi.
  unfold range, is_decimal. rewrite !andb_true_iff, !Z.leb_le. lia.
Qed.

Lemma lit_decimal (x c : ascii) :
  is_decimal x = true -> lit x c = true -> is_decimal c = true.
Proof. intros Hx H. apply lit_true in H. now subst. Qed.

(** *** What the expressions match *)

Lemma matches_Chr (p : ascii -> bool) (s t rest : string) :
  In (t, rest) (matches (Chr p) s) ->
  exists c : ascii, s = String c rest /\ t = String c EmptyString /\ p c = true.
Proof.
  simpl. destruct s as [|c s']; [contradiction |].
  destruct (p c) eqn:E; [| contradiction].
  intros [H | []]. inversion H; subst. eauto.
Qed.

Lemma matches_Seq (r1 r2 : regex) (s t rest : string) :
  In (t, rest) (matches (Seq r1 r2) s) ->
  exists t1 s1 t2 : string,
    In (t1, s1) (matches r1 s) /\ In (t2, rest) (matches r2 s1) /\
    t = (t1 ++ t2)%string.
Proof.
  simpl. rewrite in_flat_map. intros [[t1 s1] [H1 H2]].
  rewrite in_map_iff in H2. destruct H2 as [[t2 rest'] [E H2]].
  simpl in E, H2. inversion E; subst. eauto 6.
Qed.

Lemma matches_Alt (r1 r2 : regex) (s : string) (x : string * string) :
  In x (matches (Alt r1 r2) s) ->
  In x (matches r1 s) \/ In x (matches r2 s).
Proof. simpl. apply in_app_or. Qed.

Ltac invert_matches :=
  repeat match goal with
  | H : In _ (matches (Alt _ _) _) |- _ =>
      apply matches_Alt in H; destruct H as [H | H]
  | H : In _ (matches (Seq _ _) _) |- _ =>
      apply matches_Seq in H; destruct H as (? & ? & ? & ? & H & ?)
  | H : In _ (matches (Chr _) _) |- _ =>
      apply matches_Chr in H; destruct H as (? & ? & ? & H)
  end; subst.

Ltac char_facts :=
  repeat match goal with
  | H : lit " " ?c = true |- _ => apply lit_true in H; subst c
  | H : lit "." ?c = true |- _ => apply lit_true in H; subst c
  | H : lit ?x ?c = true |- _ => apply (lit_decimal x c eq_refl) in H
  | H : range ?lo ?hi ?c = true |- _ =>
      apply (range_decimal lo hi c eq_refl eq_refl) in H
  end.

Ltac use_decimal :=
  repeat match goal with
  | H : is_decimal ?c = true |- _ =>
      rewrite ?H, ?(is_decimal_not_dot c H), ?(is_decimal_not_blank c H);
      revert H
  end;
  intros.

Lemma regex_d_inv (s d rest : string) :
  In (d, rest) (matches regex_d s) ->
  s = (d ++ rest)%string /\ day_text d = true /\ no_dot d = true.
Proof.
  unfold regex_d. intros H. invert_matches; char_facts;
    unfold no_dot; simpl; use_decimal; auto.
Qed.

Lemma regex_m_inv (s m rest : string) :
  In (m, rest) (matches regex_m s) ->
  s = (m ++ rest)%string /\ month_text m = true /\ no_dot m = true.
Proof.
  unfold regex_m. intros H. invert_matches; char_facts;
    unfold no_dot; simpl; use_decimal; auto.
Qed.

Lemma regex_Y_inv (s y rest : string) :
  In (y, rest) (matches regex_Y s) ->
  s = (y ++ rest)%string /\ year_text y = true.
Proof.
  unfold regex_Y. intros H. invert_matches; simpl; use_decimal; auto.
Qed.

Lemma regex_dot_inv (s t rest : string) :
  In (t, rest) (matches regex_dot s) -> s = String "." rest.
Proof. unfold regex_dot. intros H. invert_matches; char_facts. reflexivity. Qed.

Lemma split_dot_app (d rest : string) :
  no_dot d = true -> split_dot (d ++ String "." rest) = Some (d, rest).
Proof.
  unfold no_dot. induction d as [|c d IH]; simpl; [reflexivity |].
  rewrite andb_true_iff, negb_true_iff. intros [Hc Hd].
  now rewrite Hc, IH.
Qed.

Lemma split_dot_inv (s d rest : string) :
  split_dot s = Some (d, rest) -> s = (d ++ String "." rest)%string.
Proof.
  revert d. induction s as [|c s IH]; simpl; intros d; [discriminate |].
  destruct (lit "." c) eqn:E.
  - intros H. inversion H; subst. apply lit_true in E. now subst.
  - destruct (split_dot s) as [[t r] |]; [| discriminate].
    intros H. inversion H; subst. simpl. now rewrite (IH t).
Qed.

Lemma hd_error_In {A : Type} (l : list A) (x : A) :
  hd_error l = Some x -> In x l.
Proof. destruct l; simpl; [discriminate |]. intros H. inversion H. now left. Qed.

Lemma format_regex_match_inv (s : string) (f : found) :
  format_regex_match s = Some f ->
  s = (group_d f ++ String "." (group_m f ++ String "."
        (group_Y f ++ unconverted f)))%string /\
  day_text (group_d f) = true /\ no_dot (group_d f) = true /\
  month_text (group_m f) = true /\ no_dot (group_m f) = true /\
  year_text (group_Y f) = true.
Proof.
  unfold format_regex_match. intros H. apply hd_error_In in H.
  apply in_flat_map in H. destruct H as [[d s1] [Hd H]].
  apply in_flat_map in H. destruct H as [[t1 s2] [Hdot1 H]].
  apply in_flat_map in H. destruct H as [[m s3] [Hm H]].
  apply in_flat_map in H. destruct H as [[t2 s4] [Hdot2 H]].
  apply in_map_iff in H. destruct H as [[y s5] [Hf Hy]].
  simpl in *. subst f. simpl.
  apply regex_d_inv in Hd. destruct Hd as (-> & Hd1 & Hd2).
  apply regex_dot_inv in Hdot1. subst s1.
  apply regex_m_inv in Hm. destruct Hm as (-> & Hm1 & Hm2).
  apply regex_dot_inv in Hdot2. subst s3.
  apply regex_Y_inv in Hy. destruct Hy as (-> & Hy1).
  auto 10.
Qed.

Lemma found_end_all (s : string) (f : found) :
  (len s =? found_end s f) = true -> unconverted f = EmptyString.
Proof.
  unfold found_end, len. rewrite Z.eqb_eq. intros H.
  destruct (unconverted f); [reflexivity | simpl in H; lia].
Qed.

Lemma int_number (t : string) (n : Z) : int t = inr n -> number t = n.
Proof. unfold number. now intros ->. Qed.

Lemma check_date_fields_inr (year month day : Z) (x : Z * Z * Z) :
  check_date_fields year month day = inr x ->
  existing_date year month day = true.
Proof.
  unfold check_date_fields, existing_date, MINYEAR, MAXYEAR.
  destruct (1 <=? year); [| discriminate].
  destruct (year <=? 9999); [| discriminate].
  destruct (1 <=? month); [| discriminate].
  destruct (month <=? 12); [| discriminate].
  destruct (1 <=? day); [| discriminate].
  destruct (day <=? days_in_month year month); [| discriminate].
  reflexivity.
Qed.

Lemma append_empty (s : string) : (s ++ EmptyString)%string = s.
Proof. induction s as [|c s IH]; simpl; [reflexivity | now rewrite IH]. Qed.

(** What [strptime] reads is a date in the lenient writing. *)
Lemma strptime_lenient (s : string) (dt : datetime) :
  strptime s = inr dt -> lenient_date s = true.
Proof.
  unfold strptime.
  destruct (format_regex_match s) as [f |] eqn:Ef; [| discriminate].
  destruct (len s =? found_end s f) eqn:El; simpl; [| discriminate].
  apply found_end_all in El.
  apply format_regex_match_inv in Ef.
  destruct Ef as (Hs & Hd & Hnd & Hm & Hnm & Hy).
  rewrite El, append_empty in Hs.
  unfold rbind.
  destruct (int (group_Y f)) as [e | year] eqn:EY; [discriminate |].
  destruct (int (group_m f)) as [e | month] eqn:Em; [discriminate |].
  destruct (int (group_d f)) as [e | day] eqn:Ed; [discriminate |].
  destruct (check_date_fields year month day) as [e | x] eqn:Ec;
    [discriminate |].
  intros _. apply check_date_fields_inr in Ec.
  apply int_number in EY, Em, Ed.
  unfold lenient_date. rewrite Hs.
  rewrite (split_dot_app _ _ Hnd), (split_dot_app _ _ Hnm).
  rewrite Hd, Hm, Hy, EY, Em, Ed. exact Ec.
Qed.

Lemma strptime_ValueError (s : string) (e : exn) :
  strptime s = inl e -> exists msg : string, e = ValueError msg.
Proof.
  assert (Hint : forall (t : string) (x : exn),
             int t = inl x -> exists msg : string, x = ValueError msg).
  { intros t x. unfold int. destruct (lstrip t).
    - intros H. inversion H. eauto.
    - destruct (decimal_value _ 0); intros H; inversion H. eauto. }
  assert (Hchk : forall (y m d : Z) (x : exn),
             check_date_fields y m d = inl x ->
             exists msg : string, x = ValueError msg).
  { intros y m d x. unfold check_date_fields.
    destruct (negb _); [intros H; inversion H; eauto |].
    destruct (negb _); [intros H; inversion H; eauto |].
    destruct (negb _); intros H; inversion H; eauto. }
  unfold strptime.
  destruct (format_regex_match s) as [f |];
    [| intros H; inversion H; eauto].
  destruct (negb _); [intros H; inversion H; eauto |].
  unfold rbind.
  destruct (int (group_Y f)) as [x | year] eqn:EY;
    [intros H; inversion H; subst; eauto |].
  destruct (int (group_m f)) as [x | month] eqn:Em;
    [intros H; inversion H; subst; eauto |].
  destruct (int (group_d f)) as [x | day] eqn:Ed;
    [intros H; inversion H; subst; eauto |].
  destruct (check_date_fields year month day) as [x | ymd] eqn:Ec;
    [intros H; inversion H; subst; eauto | discriminate].
Qed.

(** *** What the expressions do not miss *)

Ltac digit_cases H :=
  apply is_decimal_cases in H;
  destruct H as [H | [H | [H | [H | [H | [H | [H | [H | [H | H]]]]]]]]];
  subst.

Ltac head_of_matches Hr :=
  first [ vm_compute in Hr; discriminate Hr
        | vm_compute; eexists; reflexivity ].

Lemma regex_d_complete (d rest : string) :
  day_text d = true ->
  (1 <=? number d) && (number d <=? 31) = true ->
  exists l : list (string * string),
    matches regex_d (d ++ String "." rest) = (d, String "." rest) :: l.
Proof.
  intros Ht Hr.
  destruct d as [|c1 [|c2 [|c3 d]]]; simpl in Ht; try discriminate Ht.
  - digit_cases Ht; head_of_matches Hr.
  - apply andb_true_iff in Ht. destruct Ht as [H1 H2].
    apply orb_true_iff in H1. destruct H1 as [H1 | H1].
    + digit_cases H1; digit_cases H2; head_of_matches Hr.
    + apply lit_true in H1. subst c1. digit_cases H2; head_of_matches Hr.
Qed.

Lemma regex_m_complete (m rest : string) :
  month_text m = true ->
  (1 <=? number m) && (number m <=? 12) = true ->
  exists l : list (string * string),
    matches regex_m (m ++ String "." rest) = (m, String "." rest) :: l.
Proof.
  intros Ht Hr.
  destruct m as [|c1 [|c2 [|c3 m]]]; simpl in Ht; try discriminate Ht.
  - digit_cases Ht; head_of_matches Hr.
  - apply andb_true_iff in Ht. destruct Ht as [H1 H2].
    digit_cases H1; digit_cases H2; head_of_matches Hr.
Qed.

Lemma regex_Y_complete (y : string) :
  year_text y = true -> matches regex_Y y = [(y, EmptyString)].
Proof.
  destruct y as [|c1 [|c2 [|c3 [|c4 [|c5 y]]]]]; simpl; try discriminate.
  rewrite !andb_true_iff. intros [[[H1 H2] H3] H4].
  rewrite H1. simpl. rewrite H2. simpl. rewrite H3. simpl. rewrite H4.
  reflexivity.
Qed.

Lemma regex_dot_complete (rest : string) :
  matches regex_dot (String "." rest) = [(String "." EmptyString, rest)].
Proof. reflexivity. Qed.

Lemma format_regex_match_complete (d m y : string) :
  day_text d = true -> (1 <=? number d) && (number d <=? 31) = true ->
  month_text m = true -> (1 <=? number m) && (number m <=? 12) = true ->
  year_text y = true ->
  format_regex_match (d ++ String "." (m ++ String "." y))
  = Some (mkFound d m y EmptyString).
Proof.
  intros Hd Hdr Hm Hmr Hy. unfold format_regex_match.
  destruct (regex_d_complete d (m ++ String "." y) Hd Hdr) as [l1 E1].
  destruct (regex_m_complete m y Hm Hmr) as [l2 E2].
  rewrite E1. cbn [flat_map fst snd]. rewrite regex_dot_complete.
  cbn [flat_map fst snd]. rewrite E2.
  cbn [flat_map fst snd]. rewrite regex_dot_complete.
  cbn [flat_map fst snd]. rewrite (regex_Y_complete y Hy).
  reflexivity.
Qed.

Lemma int_day_text (d : string) :
  day_text d = true -> int d = inr (number d).
Proof.
  intros Ht.
  destruct d as [|c1 [|c2 [|c3 d]]]; simpl in Ht; try discriminate Ht.
  - digit_cases Ht; reflexivity.
  - apply andb_true_iff in Ht. destruct Ht as [H1 H2].
    apply orb_true_iff in H1. destruct H1 as [H1 | H1].
    + digit_cases H1; digit_cases H2; reflexivity.
    + apply lit_true in H1. subst c1. digit_cases H2; reflexivity.
Qed.

Lemma int_month_text (m : string) :
  month_text m = true -> int m = inr (number m).
Proof.
  intros Ht.
  destruct m as [|c1 [|c2 [|c3 m]]]; simpl in Ht; try discriminate Ht.
  - digit_cases Ht; reflexivity.
  - apply andb_true_iff in Ht. destruct Ht as [H1 H2].
    digit_cases H1; digit_cases H2; reflexivity.
Qed.

Lemma int_year_text (y : string) :
  year_text y = true -> int y = inr (number y) /\ 0 <= number y <= 9999.
Proof.
  destruct y as [|c1 [|c2 [|c3 [|c4 [|c5 y]]]]]; simpl; try discriminate.
  rewrite !andb_true_iff. intros [[[H1 H2] H3] H4].
  assert (E : int (String c1 (String c2 (String c3 (String c4 EmptyString))))
              = inr (10 * (10 * (10 * (10 * 0 + (code c1 - 48))
                     + (code c2 - 48)) + (code c3 - 48)) + (code c4 - 48))).
  { unfold int. cbn [lstrip]. rewrite (is_decimal_not_blank c1 H1).
    cbn [decimal_value]. now rewrite H1, H2, H3, H4. }
  rewrite (int_number _ _ E). split; [exact E |].
  apply is_decimal_bounds in H1, H2, H3, H4. lia.
Qed.

Lemma existing_date_inv (year month day : Z) :
  existing_date year month day = true ->
  1 <= year /\ 1 <= month <= 12 /\ 1 <= day <= days_in_month year month.
Proof.
  unfold existing_date. rewrite !andb_true_iff, !Z.leb_le. tauto.
Qed.

Lemma days_in_month_31 (year month : Z) : days_in_month year month <= 31.
Proof.
  unfold days_in_month. destruct ((month =? 2) && is_leap year); [lia |].
  unfold DAYS_IN_MONTH.
  destruct month as [| p | p]; try lia.
  do 4 (try destruct p as [p | p |]); lia.
Qed.

Lemma check_date_fields_existing (year month day : Z) :
  existing_date year month day = true -> year <= 9999 ->
  check_date_fields year month day = inr (year, month, day).
Proof.
  intros H Hy. apply existing_date_inv in H.
  destruct H as (H1 & [H2 H3] & [H4 H5]).
  unfold check_date_fields, MINYEAR, MAXYEAR.
  apply Z.leb_le in H1, H2, H3, H4, H5, Hy.
  now rewrite H1, Hy, H2, H3, H4, H5.
Qed.

(** A date in the lenient writing is read, as midnight of its day. *)
Lemma lenient_strptime (s : string) :
  lenient_date s = true -> exists dt : datetime, strptime s = inr dt.
Proof.
  unfold lenient_date.
  destruct (split_dot s) as [[d rest] |] eqn:E1; [| discriminate].
  destruct (split_dot rest) as [[m y] |] eqn:E2; [| discriminate].
  rewrite !andb_true_iff. intros [[[Hd Hm] Hy] He].
  apply split_dot_inv in E1, E2. subst rest s.
  pose proof (existing_date_inv _ _ _ He) as (H1 & [H2 H3] & [H4 H5]).
  pose proof (days_in_month_31 (number y) (number m)) as H31.
  destruct (int_year_text y Hy) as [EY HY].
  unfold strptime.
  rewrite (format_regex_match_complete d m y); auto;
    try (apply andb_true_iff; split; apply Z.leb_le; lia).
  unfold found_end. cbn [unconverted group_d group_m group_Y].
  replace (len _ =? len _ - len EmptyString) with true
    by (symmetry; apply Z.eqb_eq; unfold len; simpl; lia).
  cbn [negb]. rewrite EY, (int_month_text m Hm), (int_day_text d Hd).
  cbn [rbind]. rewrite check_date_fields_existing by (auto; lia).
  cbn [rbind]. eauto.
Qed.

(** [Birthday] takes the dates in the lenient writing, and no other text. *)
Lemma Birthday_init_lenient (s : string) :
  Birthday_init s
  = if lenient_date s then inr (mkField s) else inl birthday_error.
Proof.
  unfold Birthday_init. destruct (lenient_date s) eqn:E.
  - destruct (lenient_strptime s E) as [dt ->]. reflexivity.
  - destruct (strptime s) as [e | dt] eqn:Es.
    + destruct (strptime_ValueError s e Es) as [msg ->]. reflexivity.
    + apply strptime_lenient in Es. congruence.
Qed.

Lemma strict_lenient (s : string) :
  strict_date s = true -> lenient_date s = true.
Proof.
  destruct s as [|d1 [|d2 [|p1 [|m1 [|m2 [|p2 [|y1 [|y2 [|y3 [|y4 [|x s]]]]]]]]]]];
    simpl; try discriminate.
  rewrite !andb_true_iff.
  intros [[[[[[[[[[Hd1 Hd2] Hp1] Hm1] Hm2] Hp2] Hy1] Hy2] Hy3] Hy4] He].
  apply lit_true in Hp1, Hp2. subst p1 p2.
  unfold lenient_date. cbn [split_dot].
  rewrite (is_decimal_not_dot d1 Hd1), (is_decimal_not_dot d2 Hd2).
  change (lit "." ".") with true. cbn iota.
  cbn [split_dot].
  rewrite (is_decimal_not_dot m1 Hm1), (is_decimal_not_dot m2 Hm2).
  change (lit "." ".") with true. cbn iota.
  unfold day_text, month_text, year_text.
  now rewrite Hd1, Hd2, Hm1, Hm2, Hy1, Hy2, Hy3, Hy4, He.
Qed.

Example strptime_leap : strptime "29.02.2024" = inr (mkDatetime 738945 0).
Proof. reflexivity. Qed.

Example strptime_unpadded : strptime "1.2.2024" = inr (mkDatetime 738917 0).
Proof. reflexivity. Qed.

Example strptime_not_leap :
  strptime "29.02.2023" = inl (ValueError "day is out of range for month").
Proof. reflexivity. Qed.

Example strptime_trailing :
  strptime "01.01.20245" = inl (ValueError "unconverted data remains").
Proof. reflexivity. Qed.




(** C9: a text in the pattern DD.MM.YYYY that writes an existing date is
    taken by [Birthday], and the birthday built renders as that very
    text. *)
Theorem Birthday_init_round_trip (s : string) :
  strict_date s = true ->
  Birthday_init s = inr (mkField s) /\
  (forall b : Birthday, Birthday_init s = inr b -> Field_str b = s).
Proof.
  intros H. apply strict_lenient in H.
  rewrite (Birthday_init_lenient s), H.
  split; [reflexivity |]. intros b Hb. now inversion Hb.
Qed.

Lemma Birthday_init_round_trip_witness :
  Birthday_init "29.02.2024" = inr (mkField "29.02.2024") /\
  (forall b : Birthday,
     Birthday_init "29.02.2024" = inr b -> Field_str b = "29.02.2024").
Proof.
  apply (Birthday_init_round_trip "29.02.2024"). reflexivity.
Defined.

(** Thursday 29 February 2024, ten in the morning: the window runs from
    Sunday 10 March to Saturday 16 March, at that hour. A birthday is the
    midnight of its day, so 10 March falls before the window and 16 March
    in it. *)
Example get_birthdays_per_week_thursday :
  fst (get_birthdays_per_week (mkDatetime 738945 36000000000)
         [("Ann", mk (mkField "Ann") [] (Some (mkField "10.03.2024")));
          ("Bob", mk (mkField "Bob") [] (Some (mkField "11.03.2024")));
          ("Cid", mk (mkField "Cid") [] None);
          ("Dan", mk (mkField "Dan") [] (Some (mkField "16.03.2024")));
          ("Eve", mk (mkField "Eve") [] (Some (mkField "17.03.2024")));
          ("Fay", mk (mkField "Fay") [] (Some (mkField "11.03.1990")))])
  = inr ["Bob: 11.03.2024"; "Dan: 16.03.2024"].
Proof. reflexivity. Qed.

Lemma get_birthdays_per_week_window_witness :
  fst (get_birthdays_per_week (mkDatetime 738945 36000000000)
         [("Ann", mk (mkField "Ann") [] (Some (mkField "10.03.2024")));
          ("Bob", mk (mkField "Bob") [] (Some (mkField "11.03.2024")));
          ("Cid", mk (mkField "Cid") [] None)])
  = inr (upcomingBirthdays (mkDatetime 738945 36000000000)
         [("Ann", mk (mkField "Ann") [] (Some (mkField "10.03.2024")));
          ("Bob", mk (mkField "Bob") [] (Some (mkField "11.03.2024")));
          ("Cid", mk (mkField "Cid") [] None)]).
Proof.
  refine (proj1 (get_birthdays_per_week_window
                   (mkDatetime 738945 36000000000)
                   [("Ann", mk (mkField "Ann") [] (Some (mkField "10.03.2024")));
                    ("Bob", mk (mkField "Bob") [] (Some (mkField "11.03.2024")));
                    ("Cid", mk (mkField "Cid") [] None)] _ _ _)).
  - simpl. lia.
  - vm_compute. discriminate.
  - intros n r b Hin Hb. simpl in Hin.
    destruct Hin as [Hin | [Hin | [Hin | []]]];
      inversion Hin; subst; simpl in Hb; inversion Hb; reflexivity.
Defined.

(** ** More on records *)

Lemma remove_first_absent (phone : string) (ps : list Phone) :
  ~ In phone (phone_values ps) -> remove_first phone ps = ps.
Proof.
  induction ps as [|p ps IH]; simpl; intros H; [reflexivity |].
  destruct (String.eqb_spec (value p) phone) as [E | E].
  - exfalso. apply H. now left.
  - rewrite IH; [reflexivity |]. intros Hin. apply H. now right.
Qed.

Lemma remove_first_present (phone : string) (ps : list Phone) :
  In phone (phone_values ps) ->
  exists (l1 : list Phone) (p : Phone) (l2 : list Phone),
    ps = (l1 ++ p :: l2)%list /\
    value p = phone /\
    ~ In phone (phone_values l1) /\
    remove_first phone ps = (l1 ++ l2)%list.
Proof.
  induction ps as [|q ps IH]; simpl; intros H; [contradiction |].
  destruct (String.eqb_spec (value q) phone) as [E | E].
  - exists [], q, ps. repeat split; auto.
  - destruct H as [H | H]; [contradiction |].
    destruct (IH H) as (l1 & p & l2 & Hps & Hp & Hl1 & Hrm).
    exists (q :: l1), p, l2. subst ps. repeat split; auto.
    + simpl. intros [Hq | Hq]; [contradiction | now apply Hl1].
    + simpl. now rewrite Hrm.
Qed.

(** X1: [remove_phone] takes out the first phone of the given value and no
    other, the rest staying in order; when no phone has that value the
    record is left as it was. It raises nothing. *)
Theorem remove_phone_first (r : ContactRecord.t) (phone : string) :
  (In phone (phone_values (phones r)) ->
   exists (l1 : list Phone) (p : Phone) (l2 : list Phone),
     phones r = (l1 ++ p :: l2)%list /\
     value p = phone /\
     ~ In phone (phone_values l1) /\
     remove_phone phone r
     = (inr tt, mk (name r) (l1 ++ l2) (birthday r))) /\
  (~ In phone (phone_values (phones r)) ->
   remove_phone phone r = (inr tt, r)).
Proof.
  split; intros H.
  - destruct (remove_first_present phone (phones r) H)
      as (l1 & p & l2 & Hps & Hp & Hl1 & Hrm).
    exists l1, p, l2. repeat split; auto.
    unfold remove_phone, bind, get, set_phones. now rewrite Hrm.
  - unfold remove_phone, bind, get, set_phones.
    rewrite (remove_first_absent phone (phones r) H). now destruct r.
Qed.

Lemma remove_phone_first_witness :
  exists (l1 : list Phone) (p : Phone) (l2 : list Phone),
    [mkField "a"; mkField "b"; mkField "c"; mkField "b"]
    = (l1 ++ p :: l2)%list /\
    value p = "b" /\
    ~ In "b" (phone_values l1) /\
    remove_phone "b"
      (mk (mkField "Ann")
          [mkField "a"; mkField "b"; mkField "c"; mkField "b"] None)
    = (inr tt, mk (mkField "Ann") (l1 ++ l2) None).
Proof.
  apply (remove_phone_first
           (mk (mkField "Ann")
               [mkField "a"; mkField "b"; mkField "c"; mkField "b"] None)
           "b").
  simpl. right. left. reflexivity.
Defined.

Lemma remove_first_last (phone : string) (ps : list Phone) :
  ~ In phone (phone_values ps) ->
  remove_first phone (ps ++ [mkField phone]) = ps.
Proof.
  induction ps as [|p ps IH]; simpl; intros H.
  - now rewrite String.eqb_refl.
  - destruct (String.eqb_spec (value p) phone) as [E | E].
    + exfalso. apply H. now left.
    + rewrite IH; [reflexivity |]. intros Hin. apply H. now right.
Qed.

(** X2: A phone the record does not hold, added and then removed, leaves the
    record as it was. *)
Theorem add_phone_remove_phone (r : ContactRecord.t) (raw : string) :
  ten_digits raw ->
  ~ In raw (phone_values (phones r)) ->
  (add_phone raw ;;; remove_phone raw) r = (inr tt, r).
Proof.
  intros Hd Hn. unfold bind. rewrite (add_phone_valid r raw Hd).
  unfold remove_phone, bind, get, set_phones. simpl.
  rewrite (remove_first_last raw (phones r) Hn). now destruct r.
Qed.

Lemma add_phone_remove_phone_witness :
  (add_phone "0123456789" ;;; remove_phone "0123456789")
    (mk (mkField "Ann") [mkField "5555555555"] None)
  = (inr tt, mk (mkField "Ann") [mkField "5555555555"] None).
Proof.
  apply (add_phone_remove_phone
           (mk (mkField "Ann") [mkField "5555555555"] None) "0123456789").
  - split; [reflexivity | repeat constructor].
  - simpl. intros [H | H]; [discriminate H | exact H].
Defined.

Lemma edit_first_back (old new : string) (ps : list Phone) :
  ~ In new (phone_values ps) ->
  edit_first new old (edit_first old new ps) = ps.
Proof.
  induction ps as [|p ps IH]; simpl; intros H; [reflexivity |].
  destruct (String.eqb_spec (value p) old) as [E | E]; simpl.
  - rewrite String.eqb_refl. destruct p as [v]. simpl in E. now subst.
  - destruct (String.eqb_spec (value p) new) as [E' | E'].
    + exfalso. apply H. now left.
    + rewrite IH; [reflexivity |]. intros Hin. apply H. now right.
Qed.

(** X3: Changing a phone to a value the record does not hold, and back,
    leaves the record as it was. *)
Theorem edit_phone_back (r : ContactRecord.t) (old new : string) :
  ~ In new (phone_values (phones r)) ->
  (edit_phone old new ;;; edit_phone new old) r = (inr tt, r).
Proof.
  intros H. unfold edit_phone, bind, get, set_phones. simpl.
  rewrite (edit_first_back old new (phones r) H). now destruct r.
Qed.

Lemma edit_phone_back_witness :
  (edit_phone "b" "z" ;;; edit_phone "z" "b")
    (mk (mkField "Ann") [mkField "a"; mkField "b"; mkField "b"] None)
  = (inr tt, mk (mkField "Ann") [mkField "a"; mkField "b"; mkField "b"] None).
Proof.
  apply (edit_phone_back
           (mk (mkField "Ann") [mkField "a"; mkField "b"; mkField "b"] None)
           "b" "z").
  simpl. intros [H | [H | [H | H]]]; try discriminate H; exact H.
Defined.

Lemma record_add_birthday_run (r : ContactRecord.t) (text : string) :
  ContactRecord.add_birthday text r
  = if lenient_date text
    then (inr tt, mk (name r) (phones r) (Some (mkField text)))
    else (inl birthday_error, r).
Proof.
  unfold ContactRecord.add_birthday, bind, lift, set_birthday.
  rewrite (Birthday_init_lenient text).
  now destruct (lenient_date text).
Qed.

(** X4: [add_birthday] of a record: a date in the lenient writing becomes the
    birthday, in place of any earlier one, the name and the phones
    staying; any other text raises the [ValueError] of the birthday format
    and the record keeps the birthday it had. *)
Theorem add_birthday_record (r : ContactRecord.t) (text : string) :
  (lenient_date text = true ->
   ContactRecord.add_birthday text r
   = (inr tt, mk (name r) (phones r) (Some (mkField text)))) /\
  (lenient_date text = false ->
   ContactRecord.add_birthday text r = (inl birthday_error, r)).
Proof.
  rewrite record_add_birthday_run. split; intros ->; reflexivity.
Qed.

Lemma add_birthday_record_witness :
  ContactRecord.add_birthday "1.2.2024"
    (mk (mkField "Ann") [mkField "0123456789"] (Some (mkField "05.06.1990")))
  = (inr tt,
     mk (mkField "Ann") [mkField "0123456789"] (Some (mkField "1.2.2024")))
  /\
  ContactRecord.add_birthday "2024-02-01"
    (mk (mkField "Ann") [mkField "0123456789"] (Some (mkField "05.06.1990")))
  = (inl birthday_error,
     mk (mkField "Ann") [mkField "0123456789"] (Some (mkField "05.06.1990"))).
Proof.
  split.
  - apply (add_birthday_record
             (mk (mkField "Ann") [mkField "0123456789"]
                 (Some (mkField "05.06.1990"))) "1.2.2024").
    reflexivity.
  - apply (add_birthday_record
             (mk (mkField "Ann") [mkField "0123456789"]
                 (Some (mkField "05.06.1990"))) "2024-02-01").
    reflexivity.
Defined.

(** ** More on the address book *)

Section DictMore.

Context {V : Type}.
Implicit Types (d : dict V) (k : string) (v : V).

Lemma dict_get_del_other d k k' :
  k' <> k -> dict_get (dict_del d k) k' = dict_get d k'.
Proof.
  intros Hne. induction d as [|[k0 v0] d IH]; simpl; [reflexivity |].
  destruct (String.eqb_spec k0 k) as [E | E]; simpl.
  - subst k0. destruct (String.eqb_spec k k'); [congruence | reflexivity].
  - destruct (String.eqb_spec k0 k'); [reflexivity | exact IH].
Qed.

Lemma dict_keys_del_filter d k :
  dict_ok d ->
  dict_keys (dict_del d k)
  = filter (fun k' => negb (String.eqb k' k)) (dict_keys d).
Proof.
  unfold dict_ok.
  induction d as [|[k0 v0] d IH]; simpl; intros Hok; [reflexivity |].
  inversion Hok as [| ? ? Hnot Hok']; subst.
  destruct (String.eqb_spec k0 k) as [E | E]; simpl.
  - subst k0. clear IH Hok Hok'.
    induction d as [|[k1 v1] d IHd]; simpl in *; [reflexivity |].
    destruct (String.eqb_spec k1 k) as [E1 | E1]; simpl.
    + exfalso. apply Hnot. now left.
    + f_equal. apply IHd. tauto.
  - f_equal. now apply IH.
Qed.

Lemma dict_del_set_new d k v :
  ~ In k (dict_keys d) -> dict_del (dict_set d k v) k = d.
Proof.
  induction d as [|[k0 v0] d IH]; simpl; intros H.
  - now rewrite String.eqb_refl.
  - destruct (String.eqb_spec k0 k) as [E | E]; simpl.
    + exfalso. apply H. now left.
    + destruct (String.eqb_spec k0 k); [contradiction |].
      rewrite IH; [reflexivity | tauto].
Qed.

Lemma dict_set_same d k v : dict_get d k = Some v -> dict_set d k v = d.
Proof.
  induction d as [|[k0 v0] d IH]; simpl; [discriminate |].
  destruct (String.eqb_spec k0 k) as [E | E].
  - intros H. now inversion H.
  - intros H. now rewrite IH.
Qed.

Lemma dict_set_In d k v k' v' :
  In (k', v') (dict_set d k v) -> (k' = k /\ v' = v) \/ In (k', v') d.
Proof.
  induction d as [|[k0 v0] d IH]; simpl.
  - intros [H | []]. inversion H. now left.
  - destruct (String.eqb_spec k0 k) as [E | E]; simpl.
    + intros [H | H]; [inversion H; subst; now left | right; now right].
    + intros [H | H]; [right; now left |].
      destruct (IH H) as [H' | H']; [now left | right; now right].
Qed.

Lemma dict_del_In d k k' v' :
  In (k', v') (dict_del d k) -> In (k', v') d.
Proof.
  induction d as [|[k0 v0] d IH]; simpl; [tauto |].
  destruct (String.eqb_spec k0 k) as [E | E]; simpl; [tauto |].
  intros [H | H]; [now left | right; now apply IH].
Qed.

End DictMore.

(** X5: [add_record] touches one name: under every other name [find] returns
    what it returned before. *)
Theorem add_record_frame (book : AddressBook.t) (r : ContactRecord.t)
    (n : string) :
  n <> value (name r) ->
  fst ((add_record r ;;; find n) book) = fst (find n book).
Proof.
  intros H. unfold bind. rewrite add_record_run, !find_run. simpl.
  now rewrite dict_get_set_other.
Qed.

Lemma add_record_frame_witness :
  fst ((add_record (mk (mkField "Bob") [mkField "0123456789"] None) ;;;
        find "Ann")
         [("Ann", mk (mkField "Ann") [mkField "5555555555"] None)])
  = fst (find "Ann" [("Ann", mk (mkField "Ann") [mkField "5555555555"] None)]).
Proof.
  apply (add_record_frame
           [("Ann", mk (mkField "Ann") [mkField "5555555555"] None)]
           (mk (mkField "Bob") [mkField "0123456789"] None) "Ann").
  simpl. discriminate.
Defined.

(** X6: The order of the book, which is the order of [show_all] and of the
    birthdays listed: a record added under a name the book holds takes the
    place of the old one; under a new name it goes last. *)
Theorem add_record_order (book : AddressBook.t) (r : ContactRecord.t) :
  dict_keys (snd (add_record r book))
  = if dict_contains book (value (name r)) then dict_keys book
    else (dict_keys book ++ [value (name r)])%list.
Proof. rewrite add_record_run. simpl. apply dict_keys_set. Qed.

(** X7: [delete] touches one name: under every other name [find] returns what
    it returned before, and the names left keep their order. *)
Theorem delete_frame (book : AddressBook.t) (n n' : string) :
  dict_ok book ->
  n' <> n ->
  fst ((delete n ;;; find n') book) = fst (find n' book) /\
  dict_keys (snd (delete n book))
  = filter (fun k => negb (String.eqb k n)) (dict_keys book).
Proof.
  intros Hok Hne. unfold delete, bind, get, dict_contains.
  destruct (dict_get book n) eqn:E; simpl.
  - split; [now rewrite dict_get_del_other |].
    now apply dict_keys_del_filter.
  - split; [reflexivity |].
    apply dict_get_None in E. symmetry. clear Hok.
    induction book as [|[k v] book IH]; simpl in *; [reflexivity |].
    destruct (String.eqb_spec k n) as [Ek | Ek]; simpl.
    + exfalso. apply E. now left.
    + f_equal. apply IH. tauto.
Qed.

Lemma delete_frame_witness :
  fst ((delete "Ann" ;;; find "Bob")
         [("Ann", mk (mkField "Ann") [] None);
          ("Bob", mk (mkField "Bob") [] None)])
  = fst (find "Bob" [("Ann", mk (mkField "Ann") [] None);
                     ("Bob", mk (mkField "Bob") [] None)]) /\
  dict_keys (snd (delete "Ann" [("Ann", mk (mkField "Ann") [] None);
                                ("Bob", mk (mkField "Bob") [] None)]))
  = filter (fun k => negb (String.eqb k "Ann"))
      (dict_keys [("Ann", mk (mkField "Ann") [] None);
                  ("Bob", mk (mkField "Bob") [] None)]).
Proof.
  apply (delete_frame [("Ann", mk (mkField "Ann") [] None);
                       ("Bob", mk (mkField "Bob") [] None)] "Ann" "Bob").
  - repeat constructor; simpl; intros H; intuition discriminate.
  - discriminate.
Defined.

(** X8: A record added under a name the book does not hold, and deleted by
    that name, leaves the book as it was. *)
Theorem add_record_delete (book : AddressBook.t) (r : ContactRecord.t) :
  ~ In (value (name r)) (dict_keys book) ->
  (add_record r ;;; delete (value (name r))) book = (inr tt, book).
Proof.
  intros H. unfold bind. rewrite add_record_run.
  unfold delete, bind, get, dict_contains.
  rewrite dict_get_set. simpl. now rewrite dict_del_set_new.
Qed.

Lemma add_record_delete_witness :
  (add_record (mk (mkField "Bob") [mkField "0123456789"] None) ;;;
   delete "Bob")
    [("Ann", mk (mkField "Ann") [mkField "5555555555"] None)]
  = (inr tt, [("Ann", mk (mkField "Ann") [mkField "5555555555"] None)]).
Proof.
  apply (add_record_delete
           [("Ann", mk (mkField "Ann") [mkField "5555555555"] None)]
           (mk (mkField "Bob") [mkField "0123456789"] None)).
  simpl. intros [H | H]; [discriminate H | exact H].
Defined.

(** ** More on the window *)

(** X9: The first day of the window computed by [get_birthdays_per_week] is a
    Sunday, whatever the day of the call. *)
Theorem next_week_start_sunday (today s : datetime) :
  datetime_add_days today ((6 - weekday today) + 7) = inr s ->
  weekday s = 6.
Proof.
  unfold datetime_add_days.
  destruct ((0 <? _) && _); [| discriminate].
  intros H. inversion H; subst. apply (windowStart_weekday today).
Qed.

Lemma next_week_start_sunday_witness :
  weekday (mkDatetime 738955 36000000000) = 6.
Proof.
  apply (next_week_start_sunday (mkDatetime 738945 36000000000)).
  reflexivity.
Defined.

Lemma strptime_midnight (s : string) (d : datetime) :
  strptime s = inr d -> microsecond_of_day d = 0.
Proof.
  unfold strptime.
  destruct (format_regex_match s) as [f |]; [| discriminate].
  destruct (negb _); [discriminate |]. unfold rbind.
  destruct (int (group_Y f)); [discriminate |].
  destruct (int (group_m f)); [discriminate |].
  destruct (int (group_d f)); [discriminate |].
  destruct (check_date_fields _ _ _); [discriminate |].
  intros H. now inversion H.
Qed.

Lemma in_window_days (today d : datetime) :
  0 <= microsecond_of_day today ->
  microsecond_of_day d = 0 ->
  (datetime_le (windowStart today) d = true /\
   datetime_le d (windowEnd today) = true) <->
  toordinal today + 13 - weekday today
  + (if microsecond_of_day today =? 0 then 0 else 1)
  <= toordinal d <= toordinal today + 19 - weekday today.
Proof.
  intros Ht Hd. unfold datetime_le, windowEnd, windowStart, plus_days,
    daysUntilNextMonday. cbn [toordinal microsecond_of_day]. rewrite Hd.
  rewrite !orb_true_iff, !andb_true_iff, !Z.ltb_lt, !Z.eqb_eq, !Z.leb_le.
  destruct (Z.eqb_spec (microsecond_of_day today) 0); lia.
Qed.

(** X10: The days [get_birthdays_per_week] looks at, counted from the day of
    the call: a birthday is listed exactly when its date, year included,
    lies from 14 - weekday to 19 - weekday days after today; the day
    before those, 13 - weekday days after today, counts only for a call at
    midnight sharp. So no date of the next six days is ever listed, nor
    one of an earlier year. *)
Theorem get_birthdays_per_week_days (today : datetime)
    (book : AddressBook.t) :
  1 <= toordinal today ->
  toordinal today + 19 - weekday today <= MAXORDINAL ->
  0 <= microsecond_of_day today ->
  birthdays_built book ->
  exists lines : list string,
    fst (get_birthdays_per_week today book) = inr lines /\
    forall line : string,
      In line lines <->
      exists (n : string) (r : ContactRecord.t) (b : Birthday) (d : datetime),
        In (n, r) book /\ birthday r = Some b /\
        strptime (value b) = inr d /\
        toordinal today + 13 - weekday today
        + (if microsecond_of_day today =? 0 then 0 else 1)
        <= toordinal d <= toordinal today + 19 - weekday today /\
        line = (n ++ ": " ++ value b)%string.
Proof.
  intros Hlo Hhi Ht Hb.
  assert (Hend : toordinal (windowEnd today) <= MAXORDINAL).
  { unfold windowEnd, windowStart, plus_days, daysUntilNextMonday.
    cbn [toordinal]. lia. }
  destruct (window_no_overflow today Hlo Hend) as [Hs He].
  exists (upcomingBirthdays today book). split.
  - unfold get_birthdays_per_week, bind, lift, get. rewrite Hs, He.
    now rewrite for_each_upcoming.
  - intros line. rewrite upcomingBirthdays_In. split.
    + intros (n & r & b & d & Hin & Eb & Ed & H1 & H2 & Hl).
      exists n, r, b, d. repeat split; auto;
        apply (in_window_days today d Ht (strptime_midnight _ _ Ed)); auto.
    + intros (n & r & b & d & Hin & Eb & Ed & H & Hl).
      apply (in_window_days today d Ht (strptime_midnight _ _ Ed)) in H.
      exists n, r, b, d. tauto.
Qed.

Lemma get_birthdays_per_week_days_witness :
  exists lines : list string,
    fst (get_birthdays_per_week (mkDatetime 738945 36000000000)
           [("Ann", mk (mkField "Ann") [] (Some (mkField "10.03.2024")));
            ("Bob", mk (mkField "Bob") [] (Some (mkField "11.03.2024")))])
    = inr lines /\
    forall line : string,
      In line lines <->
      exists (n : string) (r : ContactRecord.t) (b : Birthday) (d : datetime),
        In (n, r)
           [("Ann", mk (mkField "Ann") [] (Some (mkField "10.03.2024")));
            ("Bob", mk (mkField "Bob") [] (Some (mkField "11.03.2024")))] /\
        birthday r = Some b /\
        strptime (value b) = inr d /\
        738945 + 13 - weekday (mkDatetime 738945 36000000000)
        + (if 36000000000 =? 0 then 0 else 1)
        <= toordinal d
        <= 738945 + 19 - weekday (mkDatetime 738945 36000000000) /\
        line = (n ++ ": " ++ value b)%string.
Proof.
  refine (get_birthdays_per_week_days
            (mkDatetime 738945 36000000000)
            [("Ann", mk (mkField "Ann") [] (Some (mkField "10.03.2024")));
             ("Bob", mk (mkField "Bob") [] (Some (mkField "11.03.2024")))]
            _ _ _ _).
  - simpl. lia.
  - vm_compute. discriminate.
  - simpl. lia.
  - intros n r b Hin Hb. simpl in Hin.
    destruct Hin as [Hin | [Hin | []]];
      inversion Hin; subst; simpl in Hb; inversion Hb; reflexivity.
Defined.

(** X11: At the end of the calendar: when the last day of the window would
    fall after 31 December 9999, [get_birthdays_per_week] raises
    [OverflowError], whatever the book holds, and leaves the book as it
    was. *)
Theorem get_birthdays_per_week_overflow (today : datetime)
    (book : AddressBook.t) :
  MAXORDINAL < toordinal today + 19 - weekday today ->
  get_birthdays_per_week today book
  = (inl (OverflowError "result out of range"), book).
Proof.
  intros H. unfold get_birthdays_per_week, bind, lift.
  unfold datetime_add_days at 1.
  destruct ((0 <? _) && _) eqn:E1; [| reflexivity].
  unfold datetime_add_days. cbn [toordinal].
  replace ((0 <? _) && _) with false; [reflexivity |].
  symmetry. apply andb_false_iff. right. apply Z.leb_gt. lia.
Qed.

Lemma get_birthdays_per_week_overflow_witness :
  get_birthdays_per_week (mkDatetime 3652050 0) AddressBook.empty
  = (inl (OverflowError "result out of range"), AddressBook.empty).
Proof.
  apply (get_birthdays_per_week_overflow (mkDatetime 3652050 0)
           AddressBook.empty).
  vm_compute. reflexivity.
Defined.

(** X12: [Birthday] takes every date in the lenient writing and keeps the text
    as it was typed, the day and the month with or without their leading
    zero. *)
Theorem Birthday_init_accepts_lenient (s : string) :
  lenient_date s = true ->
  Birthday_init s = inr (mkField s) /\
  exists d : datetime,
    strptime s = inr d /\ microsecond_of_day d = 0.
Proof.
  intros H. rewrite (Birthday_init_lenient s), H. split; [reflexivity |].
  destruct (lenient_strptime s H) as [d Hd].
  exists d. split; [exact Hd | exact (strptime_midnight s d Hd)].
Qed.

Lemma Birthday_init_accepts_lenient_witness :
  Birthday_init " 1.2.2024" = inr (mkField " 1.2.2024") /\
  exists d : datetime,
    strptime " 1.2.2024" = inr d /\ microsecond_of_day d = 0.
Proof.
  apply (Birthday_init_accepts_lenient " 1.2.2024"). reflexivity.
Defined.

(** ** The window on calendar days *)









(** ** Reading a line *)

Lemma all_chars_app (p : ascii -> bool) (s t : string) :
  all_chars p (s ++ t) = all_chars p s && all_chars p t.
Proof.
  induction s as [|c s IH]; simpl; [reflexivity |].
  now rewrite IH, andb_assoc.
Qed.

Lemma append_assoc (s t u : string) :
  ((s ++ t) ++ u)%string = (s ++ (t ++ u))%string.
Proof. induction s as [|c s IH]; simpl; [reflexivity | now rewrite IH]. Qed.

Lemma append_nonempty (s : string) (c : ascii) :
  (s ++ String c EmptyString)%string <> EmptyString.
Proof. destruct s; discriminate. Qed.

Lemma split_scan_tokens (s word t : string) :
  no_space word = true -> In t (split_scan s word) -> token t.
Proof.
  revert word. induction s as [|c s IH]; intros word Hw; simpl.
  - destruct word; simpl; [tauto |].
    intros [H | []]. subst t. split; [discriminate | exact Hw].
  - destruct (char_isspace c) eqn:Ec.
    + destruct word as [|a word]; [now apply IH |].
      intros [H | H]; [| now apply (IH EmptyString)].
      subst t. split; [discriminate | exact Hw].
    + apply IH. unfold no_space in *. rewrite all_chars_app, Hw. simpl.
      now rewrite Ec.
Qed.

Lemma split_scan_nil (s word : string) :
  split_scan s word = [] <->
  word = EmptyString /\ all_chars char_isspace s = true.
Proof.
  revert word. induction s as [|c s IH]; intros word; simpl.
  - destruct word; [tauto |]. split; [discriminate | intros [H _]; discriminate].
  - destruct (char_isspace c) eqn:Ec; simpl.
    + destruct word as [|a word].
      * rewrite IH. tauto.
      * split; [discriminate | intros [H _]; discriminate].
    + rewrite IH. split; [| intros [_ H]; discriminate].
      intros [H _]. exfalso. exact (append_nonempty word c H).
Qed.

Lemma str_lstrip_token (t : string) : no_space t = true -> str_lstrip t = t.
Proof.
  unfold no_space. destruct t as [|c t]; simpl; [reflexivity |].
  rewrite andb_true_iff, negb_true_iff. now intros [-> _].
Qed.

Lemma str_rstrip_token (t : string) : no_space t = true -> str_rstrip t = t.
Proof.
  unfold no_space. induction t as [|c t IH]; simpl; [reflexivity |].
  rewrite andb_true_iff, negb_true_iff. intros [Hc Ht].
  rewrite (IH Ht), Hc. now destruct t.
Qed.

(** [strip] changes no token. *)
Lemma strip_token (t : string) : no_space t = true -> strip t = t.
Proof.
  intros H. unfold strip. rewrite (str_lstrip_token t H).
  now apply str_rstrip_token.
Qed.

Lemma char_lower_idem (c : ascii) : char_lower (char_lower c) = char_lower c.
Proof. destruct c as [[] [] [] [] [] [] [] []]; vm_compute; reflexivity. Qed.

Lemma lower_idem (s : string) : lower (lower s) = lower s.
Proof.
  induction s as [|c s IH]; simpl; [reflexivity |].
  now rewrite char_lower_idem, IH.
Qed.

Import Bot.

(** X13: [parse_input] raises exactly on a line that has nothing but white
    space, the empty line included: the [ValueError] of an unpacking with
    nothing to unpack. *)
Theorem parse_input_blank (user_input : string) :
  all_chars char_isspace user_input = true <->
  parse_input user_input
  = inl (ValueError
           "not enough values to unpack (expected at least 1, got 0)").
Proof.
  unfold parse_input, split.
  destruct (split_scan user_input EmptyString) as [|cmd args] eqn:E.
  - apply split_scan_nil in E. tauto.
  - split; [| discriminate].
    intros H. exfalso.
    assert (Hn : split_scan user_input EmptyString = []).
    { apply split_scan_nil. tauto. }
    congruence.
Qed.

(** X14: What [parse_input] returns: the first token of the line in lower
    case, which lowering again does not change, and the other tokens as
    they were typed, none empty, none with white space. The [strip] of the
    source changes nothing. *)
Theorem parse_input_tokens (user_input cmd : string) (args : list string) :
  parse_input user_input = inr (cmd, args) ->
  exists first : string,
    split user_input = first :: args /\
    token first /\
    strip first = first /\
    cmd = lower first /\
    lower cmd = cmd /\
    Forall token args.
Proof.
  unfold parse_input.
  destruct (split user_input) as [|first rest] eqn:E; [discriminate |].
  intros H. inversion H; subst. clear H.
  assert (Ht : forall t, In t (first :: args) -> token t).
  { intros t Hin. rewrite <- E in Hin. unfold split in Hin.
    now apply (split_scan_tokens user_input EmptyString t). }
  assert (Hf : token first) by (apply Ht; now left).
  exists first. rewrite (strip_token first (proj2 Hf)).
  repeat split; try apply Hf; auto using lower_idem.
  apply Forall_forall. intros t Hin. apply Ht. now right.
Qed.

Lemma parse_input_tokens_witness :
  exists first : string,
    split "  ADD John   0123456789 " = first :: ["John"; "0123456789"] /\
    token first /\
    strip first = first /\
    "add" = lower first /\
    lower "add" = "add" /\
    Forall token ["John"; "0123456789"].
Proof.
  apply (parse_input_tokens "  ADD John   0123456789 " "add"
           ["John"; "0123456789"]).
  reflexivity.
Defined.

Lemma split_scan_token (t s word : string) :
  no_space t = true ->
  split_scan (t ++ s) word = split_scan s (word ++ t).
Proof.
  unfold no_space. revert word. induction t as [|c t IH]; intros word; simpl.
  - now rewrite append_empty.
  - rewrite andb_true_iff, negb_true_iff. intros [Hc Ht].
    rewrite Hc, (IH _ Ht), append_assoc. reflexivity.
Qed.

Lemma split_join (tokens : list string) :
  Forall token tokens -> split (join " " tokens) = tokens.
Proof.
  unfold split. induction tokens as [|t ts IH]; intros H; [reflexivity |].
  inversion H as [| ? ? [Hne Hns] Hts]; subst.
  destruct ts as [|t' ts].
  - simpl. rewrite <- (append_empty t) at 1.
    rewrite (split_scan_token t EmptyString EmptyString Hns). simpl.
    now destruct t.
  - change (join " " (t :: t' :: ts))
      with (t ++ String " " (join " " (t' :: ts)))%string.
    rewrite (split_scan_token t _ EmptyString Hns).
    cbn [append split_scan]. change (char_isspace " ") with true. cbn iota.
    destruct t as [|c t]; [contradiction |].
    f_equal. now apply IH.
Qed.

(** X15: A line made of tokens with one blank between them is read back as
    those tokens: the first in lower case, the others unchanged. Hence the
    command word is taken in any case of letters, and the names are
    not. *)
Theorem parse_input_join (cmd : string) (args : list string) :
  token cmd -> Forall token args ->
  parse_input (join " " (cmd :: args)) = inr (lower cmd, args).
Proof.
  intros Hc Ha. unfold parse_input.
  rewrite split_join by now constructor.
  now rewrite (strip_token cmd (proj2 Hc)).
Qed.

Lemma parse_input_join_witness :
  parse_input (join " " ["Add-Birthday"; "John"; "01.02.2000"])
  = inr (lower "Add-Birthday", ["John"; "01.02.2000"]).
Proof.
  apply (parse_input_join "Add-Birthday" ["John"; "01.02.2000"]).
  - split; [discriminate | reflexivity].
  - repeat constructor; discriminate.
Defined.

(** ** The commands *)

Lemma console_eta (w : console) : mkConsole (book w) (stdout w) = w.
Proof. now destruct w. Qed.

Lemma on_book_find (n : string) (w : console) :
  on_book (find n) w = (inr (dict_get (book w) n), w).
Proof. unfold on_book. rewrite find_run. now rewrite console_eta. Qed.

Lemma edit_first_head (p : Phone) (ps : list Phone) (new : string) :
  edit_first (value p) new (p :: ps) = mkField new :: ps.
Proof. simpl. now rewrite String.eqb_refl. Qed.

Lemma add_contact_run (w : console) (n phone : string) :
  add_contact [n; phone] w
  = if ten_digits_dec phone
    then (inr ("Contact added: "
               ++ Record_str (mk (mkField n) [mkField phone] None))%string,
          mkConsole
            (dict_set (book w) n (mk (mkField n) [mkField phone] None))
            (stdout w))
    else (inr "Error: Invalid phone number format.", w).
Proof.
  unfold add_contact, input_error, cbind, on_local, add_phone, bind, lift.
  destruct (ten_digits_dec phone) as [H | H].
  - rewrite (Phone_init_accepts phone H). reflexivity.
  - rewrite (Phone_init_rejects phone H). reflexivity.
Qed.

Lemma add_contact_arity (w : console) (args : list string) :
  length args <> 2%nat ->
  add_contact args w
  = (inr "Error: Invalid command. Please provide both name and phone.", w).
Proof.
  intros H. unfold add_contact, input_error.
  destruct args as [|a [|b [|c args]]]; try reflexivity.
  simpl in H. contradiction.
Qed.

Lemma change_contact_run (w : console) (n phone : string) :
  change_contact [n; phone] w
  = match dict_get (book w) n with
    | Some r =>
        match phones r with
        | p :: ps =>
            (inr ("Contact updated: "
                  ++ Record_str
                       (mk (name r) (mkField phone :: ps) (birthday r)))%string,
             mkConsole
               (dict_set (book w) n
                  (mk (name r) (mkField phone :: ps) (birthday r)))
               (stdout w))
        | [] => (inl (IndexError "list index out of range"), w)
        end
    | None =>
        (inr ("Error: Contact with name '" ++ n ++ "' not found.")%string, w)
    end.
Proof.
  unfold change_contact, input_error, cbind. rewrite on_book_find.
  destruct (dict_get (book w) n) as [r |]; [| reflexivity].
  unfold first_phone. destruct (phones r) as [|p ps] eqn:Hp; [reflexivity |].
  unfold cret, on_record, edit_phone, bind, get, set_phones.
  rewrite Hp, edit_first_head. reflexivity.
Qed.

Lemma change_contact_arity (w : console) (args : list string) :
  length args <> 2%nat ->
  change_contact args w
  = (inr "Error: Invalid command. Please provide both name and phone.", w).
Proof.
  intros H. unfold change_contact, input_error.
  destruct args as [|a [|b [|c args]]]; try reflexivity.
  simpl in H. contradiction.
Qed.

Lemma show_phone_run (w : console) (n : string) :
  show_phone [n] w
  = match dict_get (book w) n with
    | Some r =>
        match phones r with
        | p :: _ => (inr ("Phone for " ++ n ++ ": " ++ value p)%string, w)
        | [] => (inl (IndexError "list index out of range"), w)
        end
    | None =>
        (inr ("Error: Contact with name '" ++ n ++ "' not found.")%string, w)
    end.
Proof.
  unfold show_phone, input_error, cbind. rewrite on_book_find.
  destruct (dict_get (book w) n) as [r |]; [| reflexivity].
  unfold first_phone. destruct (phones r); reflexivity.
Qed.

Lemma show_phone_arity (w : console) (args : list string) :
  length args <> 1%nat ->
  show_phone args w = (inr "Error: Invalid command. Please provide the name.", w).
Proof.
  intros H. unfold show_phone, input_error.
  destruct args as [|a [|b args]]; try reflexivity.
  simpl in H. contradiction.
Qed.

Lemma add_birthday_run (w : console) (n text : string) :
  Bot.add_birthday [n; text] w
  = match dict_get (book w) n with
    | Some r =>
        if lenient_date text
        then (inr ("Birthday added for " ++ n ++ ": " ++ text)%string,
              mkConsole
                (dict_set (book w) n
                   (mk (name r) (phones r) (Some (mkField text))))
                (stdout w))
        else (inr "Error: Invalid birthday format. Use DD.MM.YYYY.", w)
    | None =>
        (inr ("Error: Contact with name '" ++ n ++ "' not found.")%string, w)
    end.
Proof.
  unfold Bot.add_birthday, input_error, cbind. rewrite on_book_find.
  destruct (dict_get (book w) n) as [r |] eqn:Hg; [| reflexivity].
  unfold on_record. rewrite record_add_birthday_run.
  destruct (lenient_date text); [reflexivity |].
  rewrite (dict_set_same (book w) n r Hg), console_eta. reflexivity.
Qed.

Lemma add_birthday_arity (w : console) (args : list string) :
  length args <> 2%nat ->
  Bot.add_birthday args w
  = (inr "Error: Invalid command. Please provide both name and birthday.", w).
Proof.
  intros H. unfold Bot.add_birthday, input_error.
  destruct args as [|a [|b [|c args]]]; try reflexivity.
  simpl in H. contradiction.
Qed.

Lemma show_birthday_run (w : console) (n : string) :
  show_birthday [n] w
  = match dict_get (book w) n with
    | Some r =>
        (inr ("Birthday for " ++ n ++ ": "
              ++ optional_str (birthday r))%string, w)
    | None =>
        (inr ("Error: Contact with name '" ++ n ++ "' not found.")%string, w)
    end.
Proof.
  unfold show_birthday, input_error, cbind. rewrite on_book_find.
  destruct (dict_get (book w) n) as [r |]; reflexivity.
Qed.

Lemma show_birthday_arity (w : console) (args : list string) :
  length args <> 1%nat ->
  show_birthday args w
  = (inr "Error: Invalid command. Please provide the name.", w).
Proof.
  intros H. unfold show_birthday, input_error.
  destruct args as [|a [|b args]]; try reflexivity.
  simpl in H. contradiction.
Qed.

Lemma get_birthdays_per_week_state (today : datetime)
    (b : AddressBook.t) :
  snd (get_birthdays_per_week today b) = b.
Proof.
  unfold get_birthdays_per_week, bind, lift, get.
  destruct (datetime_add_days today _) as [e | s]; [reflexivity |].
  destruct (datetime_add_days s 6) as [e | f]; [reflexivity |].
  apply for_each_state.
Qed.

Lemma birthdays_run (w : console) (today : datetime) :
  birthdays today w
  = (match fst (get_birthdays_per_week today (book w)) with
     | inl (ValueError e) => inr ("Error: " ++ e)%string
     | inl e => inl (Raised e)
     | inr [] => inr "No upcoming birthdays in the next week."
     | inr lines =>
         inr ("Upcoming birthdays:" ++ newline ++ join newline lines)%string
     end, w).
Proof.
  unfold birthdays, input_error, cbind, on_book.
  pose proof (get_birthdays_per_week_state today (book w)) as Hs.
  destruct (get_birthdays_per_week today (book w)) as [[[m | m] | l] b];
    simpl in Hs; subst b; simpl; rewrite ?console_eta; try reflexivity.
  destruct l; reflexivity.
Qed.

Lemma print_records_run (items : list (string * ContactRecord.t))
    (w : console) :
  print_records items w
  = (inr tt,
     mkConsole (book w)
       (stdout w
        ++ map (fun item => (Record_str (snd item) ++ newline)%string) items)).
Proof.
  revert w. induction items as [|[n r] items IH]; intros w; simpl.
  - unfold cret. now rewrite app_nil_r, console_eta.
  - unfold cbind, print. rewrite IH. simpl. now rewrite <- app_assoc.
Qed.

Lemma show_all_run (w : console) :
  show_all w
  = (inr (match book w with
          | [] => Some "No contacts available."
          | _ => None
          end),
     mkConsole (book w)
       (stdout w
        ++ map (fun item => (Record_str (snd item) ++ newline)%string)
             (book w))).
Proof.
  unfold show_all, input_error.
  destruct (book w) as [|item items] eqn:E.
  - unfold cret. simpl. rewrite app_nil_r, <- E. now rewrite console_eta.
  - unfold cbind. rewrite print_records_run, E. reflexivity.
Qed.

(** X16: [add_contact]: with a name and a text that [Phone] takes, the book
    holds under that name a record with this one phone and no birthday,
    whatever it held there before; with a text that [Phone] refuses, or
    with other than two arguments, the answer is the error text and
    nothing changes. It raises nothing. *)
Theorem add_contact_outcomes (w : console) (n phone : string)
    (args : list string) :
  (ten_digits phone ->
   add_contact [n; phone] w
   = (inr ("Contact added: "
           ++ Record_str (mk (mkField n) [mkField phone] None))%string,
      mkConsole (dict_set (book w) n (mk (mkField n) [mkField phone] None))
        (stdout w)) /\
   dict_get (book (snd (add_contact [n; phone] w))) n
   = Some (mk (mkField n) [mkField phone] None)) /\
  (~ ten_digits phone ->
   add_contact [n; phone] w = (inr "Error: Invalid phone number format.", w))
  /\
  (length args <> 2%nat ->
   add_contact args w
   = (inr "Error: Invalid command. Please provide both name and phone.", w)).
Proof.
  rewrite add_contact_run.
  split; [| split].
  - intros H. destruct (ten_digits_dec phone); [| contradiction].
    split; [reflexivity |]. simpl. apply dict_get_set.
  - intros H. destruct (ten_digits_dec phone); [contradiction | reflexivity].
  - apply add_contact_arity.
Qed.

Lemma add_contact_outcomes_witness :
  add_contact ["Ann"; "12345"] (mkConsole AddressBook.empty [])
  = (inr "Error: Invalid phone number format.",
     mkConsole AddressBook.empty []) /\
  add_contact ["Ann"] (mkConsole AddressBook.empty [])
  = (inr "Error: Invalid command. Please provide both name and phone.",
     mkConsole AddressBook.empty []) /\
  dict_get
    (book (snd (add_contact ["Ann"; "0123456789"]
                  (mkConsole
                     [("Ann", mk (mkField "Ann") [mkField "5555555555"]
                                 (Some (mkField "01.02.2000")))] []))))
    "Ann"
  = Some (mk (mkField "Ann") [mkField "0123456789"] None).
Proof.
  split; [| split].
  - apply (add_contact_outcomes (mkConsole AddressBook.empty [])
             "Ann" "12345" []).
    intros [Hl _]. vm_compute in Hl. discriminate.
  - apply (add_contact_outcomes (mkConsole AddressBook.empty [])
             "Ann" "12345" ["Ann"]).
    simpl. discriminate.
  - apply (add_contact_outcomes
             (mkConsole
                [("Ann", mk (mkField "Ann") [mkField "5555555555"]
                            (Some (mkField "01.02.2000")))] [])
             "Ann" "0123456789" []).
    split; [reflexivity | repeat constructor].
Defined.

(** X17: [change_contact]: for a name the book holds, the first phone of the
    record takes the new text, whatever the text is ([Phone] is not asked),
    the other phones and the birthday stay and the record keeps its place
    in the book; for a name it does not hold, the answer is the error text
    and nothing changes; for a record without phones, [IndexError]
    escapes. *)
Theorem change_contact_outcomes (w : console) (n phone : string)
    (r : ContactRecord.t) (p : Phone) (ps : list Phone) :
  (dict_get (book w) n = Some r -> phones r = p :: ps ->
   change_contact [n; phone] w
   = (inr ("Contact updated: "
           ++ Record_str (mk (name r) (mkField phone :: ps) (birthday r)))%string,
      mkConsole
        (dict_set (book w) n (mk (name r) (mkField phone :: ps) (birthday r)))
        (stdout w)) /\
   dict_keys (book (snd (change_contact [n; phone] w))) = dict_keys (book w))
  /\
  (dict_get (book w) n = Some r -> phones r = [] ->
   change_contact [n; phone] w
   = (inl (IndexError "list index out of range"), w)) /\
  (dict_get (book w) n = None ->
   change_contact [n; phone] w
   = (inr ("Error: Contact with name '" ++ n ++ "' not found.")%string, w)).
Proof.
  rewrite change_contact_run.
  split; [| split].
  - intros Hg Hp. rewrite Hg, Hp. split; [reflexivity |]. simpl.
    rewrite dict_keys_set. unfold dict_contains. now rewrite Hg.
  - intros Hg Hp. now rewrite Hg, Hp.
  - intros Hg. now rewrite Hg.
Qed.

Lemma change_contact_outcomes_witness :
  change_contact ["Ann"; "abc"]
    (mkConsole
       [("Ann", mk (mkField "Ann")
                   [mkField "5555555555"; mkField "0123456789"]
                   (Some (mkField "01.02.2000")))] [])
  = (inr ("Contact updated: "
          ++ Record_str
               (mk (mkField "Ann") [mkField "abc"; mkField "0123456789"]
                   (Some (mkField "01.02.2000"))))%string,
     mkConsole
       [("Ann", mk (mkField "Ann") [mkField "abc"; mkField "0123456789"]
                   (Some (mkField "01.02.2000")))] []) /\
  change_contact ["Bob"; "0123456789"] (mkConsole AddressBook.empty [])
  = (inr "Error: Contact with name 'Bob' not found.",
     mkConsole AddressBook.empty []) /\
  change_contact ["Ann"; "0123456789"]
    (mkConsole [("Ann", mk (mkField "Ann") [] None)] [])
  = (inl (IndexError "list index out of range"),
     mkConsole [("Ann", mk (mkField "Ann") [] None)] []).
Proof.
  split; [| split].
  - apply (change_contact_outcomes
             (mkConsole
                [("Ann", mk (mkField "Ann")
                            [mkField "5555555555"; mkField "0123456789"]
                            (Some (mkField "01.02.2000")))] [])
             "Ann" "abc"
             (mk (mkField "Ann") [mkField "5555555555"; mkField "0123456789"]
                 (Some (mkField "01.02.2000")))
             (mkField "5555555555") [mkField "0123456789"]);
      reflexivity.
  - apply (change_contact_outcomes (mkConsole AddressBook.empty [])
             "Bob" "0123456789" (ContactRecord.init "Bob")
             (mkField "x") []).
    reflexivity.
  - apply (change_contact_outcomes
             (mkConsole [("Ann", mk (mkField "Ann") [] None)] [])
             "Ann" "0123456789" (mk (mkField "Ann") [] None)
             (mkField "x") []);
      reflexivity.
Defined.

(** X18: [add-birthday] and then [show-birthday]: for a name the book holds and
    a date in the lenient writing, the record gets the birthday, keeping
    its phones and its place, and [show_birthday] answers with the text as
    it was typed. *)
Theorem add_birthday_show_birthday (w : console) (n text : string)
    (r : ContactRecord.t) :
  dict_get (book w) n = Some r ->
  lenient_date text = true ->
  Bot.add_birthday [n; text] w
  = (inr ("Birthday added for " ++ n ++ ": " ++ text)%string,
     mkConsole
       (dict_set (book w) n (mk (name r) (phones r) (Some (mkField text))))
       (stdout w)) /\
  fst (show_birthday [n] (snd (Bot.add_birthday [n; text] w)))
  = inr ("Birthday for " ++ n ++ ": " ++ text)%string.
Proof.
  intros Hg Ht. rewrite add_birthday_run, Hg, Ht.
  split; [reflexivity |].
  rewrite show_birthday_run. cbn [snd book]. rewrite dict_get_set.
  reflexivity.
Qed.

Lemma add_birthday_show_birthday_witness :
  fst (show_birthday ["Ann"]
         (snd (Bot.add_birthday ["Ann"; "1.2.2000"]
                 (mkConsole
                    [("Ann", mk (mkField "Ann") [mkField "0123456789"] None)]
                    []))))
  = inr "Birthday for Ann: 1.2.2000".
Proof.
  apply (add_birthday_show_birthday
           (mkConsole
              [("Ann", mk (mkField "Ann") [mkField "0123456789"] None)] [])
           "Ann" "1.2.2000"
           (mk (mkField "Ann") [mkField "0123456789"] None));
    reflexivity.
Defined.

(** X19: [add-birthday] refused: a text that is no date gives the error text
    of the birthday format, an unknown name the text that the contact was
    not found; either way the book and the terminal are as before. *)
Theorem add_birthday_refused (w : console) (n text : string)
    (r : ContactRecord.t) :
  (dict_get (book w) n = Some r -> lenient_date text = false ->
   Bot.add_birthday [n; text] w
   = (inr "Error: Invalid birthday format. Use DD.MM.YYYY.", w)) /\
  (dict_get (book w) n = None ->
   Bot.add_birthday [n; text] w
   = (inr ("Error: Contact with name '" ++ n ++ "' not found.")%string, w)).
Proof.
  rewrite add_birthday_run. split.
  - intros Hg Ht. now rewrite Hg, Ht.
  - intros Hg. now rewrite Hg.
Qed.

Lemma add_birthday_refused_witness :
  Bot.add_birthday ["Ann"; "30.02.2024"]
    (mkConsole [("Ann", mk (mkField "Ann") [mkField "0123456789"] None)] [])
  = (inr "Error: Invalid birthday format. Use DD.MM.YYYY.",
     mkConsole [("Ann", mk (mkField "Ann") [mkField "0123456789"] None)] [])
  /\
  Bot.add_birthday ["Bob"; "01.02.2024"]
    (mkConsole [("Ann", mk (mkField "Ann") [mkField "0123456789"] None)] [])
  = (inr "Error: Contact with name 'Bob' not found.",
     mkConsole [("Ann", mk (mkField "Ann") [mkField "0123456789"] None)] []).
Proof.
  split.
  - apply (add_birthday_refused
             (mkConsole
                [("Ann", mk (mkField "Ann") [mkField "0123456789"] None)] [])
             "Ann" "30.02.2024"
             (mk (mkField "Ann") [mkField "0123456789"] None));
      reflexivity.
  - apply (add_birthday_refused
             (mkConsole
                [("Ann", mk (mkField "Ann") [mkField "0123456789"] None)] [])
             "Bob" "01.02.2024" (ContactRecord.init "Bob")).
    reflexivity.
Defined.

(** X20: Adding a contact again erases its birthday: after [add_contact] with a
    phone that [Phone] takes, [show_birthday] answers None, whatever the
    book held under the name. *)
Theorem add_contact_show_birthday (w : console) (n phone : string) :
  ten_digits phone ->
  fst (show_birthday [n] (snd (add_contact [n; phone] w)))
  = inr ("Birthday for " ++ n ++ ": None")%string.
Proof.
  intros H. rewrite add_contact_run.
  destruct (ten_digits_dec phone); [| contradiction].
  rewrite show_birthday_run. cbn [snd book]. rewrite dict_get_set.
  reflexivity.
Qed.

Lemma add_contact_show_birthday_witness :
  fst (show_birthday ["Ann"]
         (snd (add_contact ["Ann"; "0123456789"]
                 (mkConsole
                    [("Ann", mk (mkField "Ann") [mkField "5555555555"]
                                (Some (mkField "01.02.2000")))] []))))
  = inr "Birthday for Ann: None".
Proof.
  apply (add_contact_show_birthday
           (mkConsole
              [("Ann", mk (mkField "Ann") [mkField "5555555555"]
                          (Some (mkField "01.02.2000")))] [])
           "Ann" "0123456789").
  split; [reflexivity | repeat constructor].
Defined.

(** X21: [show_phone] answers with the first phone of the record and with no
    other; for a record without phones [IndexError] escapes; for an
    unknown name the answer is the error text. *)
Theorem show_phone_outcomes (w : console) (n : string)
    (r : ContactRecord.t) (p : Phone) (ps : list Phone) :
  (dict_get (book w) n = Some r -> phones r = p :: ps ->
   show_phone [n] w = (inr ("Phone for " ++ n ++ ": " ++ value p)%string, w))
  /\
  (dict_get (book w) n = Some r -> phones r = [] ->
   show_phone [n] w = (inl (IndexError "list index out of range"), w)) /\
  (dict_get (book w) n = None ->
   show_phone [n] w
   = (inr ("Error: Contact with name '" ++ n ++ "' not found.")%string, w)).
Proof.
  rewrite show_phone_run.
  repeat split; intros Hg; try intros Hp; rewrite Hg; try rewrite Hp;
    reflexivity.
Qed.

Lemma show_phone_outcomes_witness :
  show_phone ["Ann"]
    (mkConsole
       [("Ann", mk (mkField "Ann")
                   [mkField "5555555555"; mkField "0123456789"] None)] [])
  = (inr "Phone for Ann: 5555555555",
     mkConsole
       [("Ann", mk (mkField "Ann")
                   [mkField "5555555555"; mkField "0123456789"] None)] []).
Proof.
  apply (show_phone_outcomes
           (mkConsole
              [("Ann", mk (mkField "Ann")
                          [mkField "5555555555"; mkField "0123456789"] None)]
              [])
           "Ann"
           (mk (mkField "Ann") [mkField "5555555555"; mkField "0123456789"]
               None)
           (mkField "5555555555") [mkField "0123456789"]);
    reflexivity.
Defined.

Lemma show_phone_state (w : console) (args : list string) :
  snd (show_phone args w) = w.
Proof.
  destruct args as [|n [|a args]].
  - now rewrite show_phone_arity.
  - rewrite show_phone_run. destruct (dict_get (book w) n) as [r |];
      [destruct (phones r) |]; reflexivity.
  - now rewrite show_phone_arity.
Qed.

Lemma show_birthday_state (w : console) (args : list string) :
  snd (show_birthday args w) = w.
Proof.
  destruct args as [|n [|a args]].
  - now rewrite show_birthday_arity.
  - rewrite show_birthday_run. now destruct (dict_get (book w) n).
  - now rewrite show_birthday_arity.
Qed.

(** X22: The queries change nothing: [show_phone], [show_birthday] and
    [birthdays] leave the book and the terminal as they were, whatever
    their arguments and whether they answer or raise. *)
Theorem queries_read_only (w : console) (args : list string)
    (today : datetime) :
  snd (show_phone args w) = w /\
  snd (show_birthday args w) = w /\
  snd (birthdays today w) = w.
Proof.
  split; [apply show_phone_state |]. split; [apply show_birthday_state |].
  now rewrite birthdays_run.
Qed.

(** X23: [show_all] prints one line for each record, in the order of the book,
    and returns nothing; on an empty book it prints nothing and returns
    the text that there are no contacts. The book is as before. *)
Theorem show_all_prints (w : console) :
  show_all w
  = (inr (match book w with
          | [] => Some "No contacts available."
          | _ => None
          end),
     mkConsole (book w)
       (stdout w
        ++ map (fun item => (Record_str (snd item) ++ newline)%string)
             (book w))).
Proof. apply show_all_run. Qed.

(** ** The loop *)

Lemma then_print_run (h : Cmd string) (w : console) :
  (s <~ h ;; _ <~ print s ;; cret false) w
  = match h w with
    | (inl f, w') => (inl f, w')
    | (inr s, w') =>
        (inr false,
         mkConsole (book w') (stdout w' ++ [(s ++ newline)%string]))
    end.
Proof. unfold cbind. destruct (h w) as [[f | s] w']; reflexivity. Qed.

Lemma input_error_fst {A : Type} (of_str : string -> A) (func : Cmd A)
    (w : console) (msg : string) :
  fst (input_error of_str func w) <> inl (Raised (ValueError msg)).
Proof.
  unfold input_error.
  destruct (func w) as [[[[m | m] | m |] | a] w']; simpl; discriminate.
Qed.

Lemma then_print_fst (h : Cmd string) (w : console) (msg : string) :
  fst (h w) <> inl (Raised (ValueError msg)) ->
  fst ((s <~ h ;; _ <~ print s ;; cret false) w)
  <> inl (Raised (ValueError msg)).
Proof.
  rewrite then_print_run. intros H.
  destruct (h w) as [[f | s] w']; simpl in *; [| discriminate].
  intros E. apply H. inversion E. reflexivity.
Qed.

Lemma dispatch_fst (command : string) (args : list string)
    (today : datetime) (w : console) (msg : string) :
  fst (dispatch command args today w) <> inl (Raised (ValueError msg)).
Proof.
  unfold dispatch.
  destruct (_ || _); [discriminate |].
  destruct (String.eqb command "hello"); [discriminate |].
  destruct (String.eqb command "add");
    [apply then_print_fst, input_error_fst |].
  destruct (String.eqb command "change");
    [apply then_print_fst, input_error_fst |].
  destruct (String.eqb command "phone");
    [apply then_print_fst, input_error_fst |].
  destruct (String.eqb command "all").
  { unfold cbind. rewrite show_all_run. discriminate. }
  destruct (String.eqb command "add-birthday");
    [apply then_print_fst, input_error_fst |].
  destruct (String.eqb command "show-birthday");
    [apply then_print_fst, input_error_fst |].
  destruct (String.eqb command "birthdays");
    [apply then_print_fst, input_error_fst |].
  discriminate.
Qed.

Lemma guarded_run (command : string) (args : list string)
    (today : datetime) (w : console) :
  guarded (dispatch command args today) w = dispatch command args today w.
Proof.
  unfold guarded.
  pose proof (dispatch_fst command args today w) as H.
  destruct (dispatch command args today w) as [[[[m | m] | m |] | a] w'];
    try reflexivity.
  exfalso. now apply (H m).
Qed.

(** X24: The [try] of the loop catches nothing: every command turns its own
    [ValueError] into the text it returns, so no [ValueError] leaves a
    command, and for every command and every state of the book the
    guarded call does what the bare call does. *)
Theorem guarded_dispatch (command : string) (args : list string)
    (today : datetime) (w : console) :
  (forall msg : string,
     fst (dispatch command args today w) <> inl (Raised (ValueError msg))) /\
  guarded (dispatch command args today) w = dispatch command args today w.
Proof.
  split; [intros msg; apply dispatch_fst | apply guarded_run].
Qed.

Lemma book_ok_empty : book_ok AddressBook.empty.
Proof.
  split; [constructor |]. split; intros ? ? ; simpl; [tauto |].
  intros b H. contradiction.
Qed.

Lemma book_ok_set (b : AddressBook.t) (k : string) (r : ContactRecord.t) :
  book_ok b ->
  value (name r) = k ->
  phones r <> [] ->
  (forall bd : Birthday,
     birthday r = Some bd -> Birthday_init (value bd) = inr bd) ->
  book_ok (dict_set b k r).
Proof.
  intros (Hok & Hent & Hbd) Hk Hp Hb. split; [now apply dict_set_ok |].
  split.
  - intros k' r' Hin. apply dict_set_In in Hin.
    destruct Hin as [[-> ->] | Hin]; [now split | now apply Hent].
  - intros k' r' bd Hin Hbr. apply dict_set_In in Hin.
    destruct Hin as [[-> ->] | Hin]; [now apply Hb | now apply (Hbd k' r')].
Qed.

Lemma add_contact_ok (w : console) (args : list string) :
  book_ok (book w) ->
  exists (s : string) (w' : console),
    add_contact args w = (inr s, w') /\ book_ok (book w').
Proof.
  intros Hok.
  destruct args as [|n [|phone [|c args]]];
    try (rewrite add_contact_arity by (simpl; discriminate); eauto).
  rewrite add_contact_run. destruct (ten_digits_dec phone); [| eauto].
  eexists. eexists. split; [reflexivity |]. simpl.
  apply book_ok_set; auto; simpl; discriminate.
Qed.

Lemma change_contact_ok (w : console) (args : list string) :
  book_ok (book w) ->
  exists (s : string) (w' : console),
    change_contact args w = (inr s, w') /\ book_ok (book w').
Proof.
  intros Hok.
  destruct args as [|n [|phone [|c args]]];
    try (rewrite change_contact_arity by (simpl; discriminate); eauto).
  rewrite change_contact_run.
  destruct (dict_get (book w) n) as [r |] eqn:Hg; [| eauto].
  pose proof Hok as (Hd & Hent & Hbd).
  apply dict_get_In in Hg. destruct (Hent n r Hg) as [Hn Hp].
  destruct (phones r) as [|p ps]; [contradiction |].
  eexists. eexists. split; [reflexivity |]. simpl.
  apply book_ok_set; auto; simpl; [discriminate |].
  intros bd Hb. now apply (Hbd n r).
Qed.

Lemma show_phone_ok (w : console) (args : list string) :
  book_ok (book w) -> exists s : string, show_phone args w = (inr s, w).
Proof.
  intros Hok.
  destruct args as [|n [|a args]];
    try (rewrite show_phone_arity by (simpl; discriminate); eauto).
  rewrite show_phone_run.
  destruct (dict_get (book w) n) as [r |] eqn:Hg; [| eauto].
  pose proof Hok as (Hd & Hent & Hbd).
  apply dict_get_In in Hg. destruct (Hent n r Hg) as [Hn Hp].
  destruct (phones r) as [|p ps]; [contradiction | eauto].
Qed.

Lemma add_birthday_ok (w : console) (args : list string) :
  book_ok (book w) ->
  exists (s : string) (w' : console),
    Bot.add_birthday args w = (inr s, w') /\ book_ok (book w').
Proof.
  intros Hok.
  destruct args as [|n [|text [|c args]]];
    try (rewrite add_birthday_arity by (simpl; discriminate); eauto).
  rewrite add_birthday_run.
  destruct (dict_get (book w) n) as [r |] eqn:Hg; [| eauto].
  destruct (lenient_date text) eqn:Ht; [| eauto].
  pose proof Hok as (Hd & Hent & Hbd).
  apply dict_get_In in Hg. destruct (Hent n r Hg) as [Hn Hp].
  eexists. eexists. split; [reflexivity |]. simpl.
  apply book_ok_set; auto. simpl. intros bd Hb. inversion Hb; subst. simpl.
  now rewrite Birthday_init_lenient, Ht.
Qed.

Lemma show_birthday_ok (w : console) (args : list string) :
  exists s : string, show_birthday args w = (inr s, w).
Proof.
  destruct args as [|n [|a args]];
    try (rewrite show_birthday_arity by (simpl; discriminate); eauto).
  rewrite show_birthday_run. destruct (dict_get (book w) n); eauto.
Qed.

Lemma birthdays_ok (w : console) (today : datetime) :
  (exists s : string, birthdays today w = (inr s, w)) \/
  (exists msg : string,
     birthdays today w = (inl (Raised (OverflowError msg)), w)).
Proof.
  rewrite birthdays_run.
  destruct (fst (get_birthdays_per_week today (book w))) as [[m | m] | l];
    eauto.
  destruct l; eauto.
Qed.

Lemma dispatch_ok (command : string) (args : list string)
    (today : datetime) (w : console) :
  book_ok (book w) ->
  book_ok (book (snd (dispatch command args today w))) /\
  forall f : failure,
    fst (dispatch command args today w) = inl f ->
    exists msg : string, f = Raised (OverflowError msg).
Proof.
  intros Hok. unfold dispatch.
  destruct (_ || _); [split; [exact Hok | discriminate] |].
  destruct (String.eqb command "hello"); [split; [exact Hok | discriminate] |].
  destruct (String.eqb command "add").
  { rewrite then_print_run.
    destruct (add_contact_ok w args Hok) as (s & w' & -> & Hok').
    split; [exact Hok' | discriminate]. }
  destruct (String.eqb command "change").
  { rewrite then_print_run.
    destruct (change_contact_ok w args Hok) as (s & w' & -> & Hok').
    split; [exact Hok' | discriminate]. }
  destruct (String.eqb command "phone").
  { rewrite then_print_run.
    destruct (show_phone_ok w args Hok) as (s & ->).
    split; [exact Hok | discriminate]. }
  destruct (String.eqb command "all").
  { unfold cbind. rewrite show_all_run. split; [exact Hok | discriminate]. }
  destruct (String.eqb command "add-birthday").
  { rewrite then_print_run.
    destruct (add_birthday_ok w args Hok) as (s & w' & -> & Hok').
    split; [exact Hok' | discriminate]. }
  destruct (String.eqb command "show-birthday").
  { rewrite then_print_run.
    destruct (show_birthday_ok w args) as (s & ->).
    split; [exact Hok | discriminate]. }
  destruct (String.eqb command "birthdays").
  { rewrite then_print_run.
    destruct (birthdays_ok w today) as [(s & ->) | (msg & ->)].
    - split; [exact Hok | discriminate].
    - split; [exact Hok |]. intros f Hf. inversion Hf. eauto. }
  split; [exact Hok | discriminate].
Qed.

(** X25: What the commands keep: from a book where every record stands under
    its own name, has a phone and has a birthday built by [Birthday] if it
    has one, every command leads to such a book again; and the only
    exception that can escape a command is the [OverflowError] of
    [birthdays] at the end of the calendar. No [IndexError] escapes. *)
Theorem dispatch_keeps_book_ok (command : string) (args : list string)
    (today : datetime) (w : console) :
  book_ok (book w) ->
  book_ok (book (snd (dispatch command args today w))) /\
  forall f : failure,
    fst (dispatch command args today w) = inl f ->
    exists msg : string, f = Raised (OverflowError msg).
Proof. apply dispatch_ok. Qed.

Lemma dispatch_keeps_book_ok_witness :
  book_ok
    (book (snd (dispatch "add" ["Ann"; "0123456789"]
                  (mkDatetime 738945 0) (mkConsole AddressBook.empty []))))
  /\
  forall f : failure,
    fst (dispatch "add" ["Ann"; "0123456789"]
           (mkDatetime 738945 0) (mkConsole AddressBook.empty [])) = inl f ->
    exists msg : string, f = Raised (OverflowError msg).
Proof.
  apply (dispatch_keeps_book_ok "add" ["Ann"; "0123456789"]
           (mkDatetime 738945 0) (mkConsole AddressBook.empty [])).
  simpl. split; [constructor |]. split.
  - intros k r H. contradiction.
  - intros n r b H. contradiction.
Defined.

Lemma main_loop_ok (inputs : list (string * datetime)) (w : console) :
  book_ok (book w) ->
  book_ok (book (snd (main_loop inputs w))) /\
  (fst (main_loop inputs w) = Exited \/
   fst (main_loop inputs w) = Crashed EOFError \/
   fst (main_loop inputs w) = Crashed (Raised unpack_error) \/
   exists msg : string,
     fst (main_loop inputs w) = Crashed (Raised (OverflowError msg))).
Proof.
  revert w. induction inputs as [|[line today] inputs IH]; intros w Hok.
  - simpl. split; [exact Hok | tauto].
  - cbn [main_loop].
    unfold parse_input.
    destruct (split line) as [|cmd args].
    + simpl. split; [exact Hok |]. right. right. left. reflexivity.
    + rewrite guarded_run.
      assert (Hok1 : book_ok (book (write "Enter a command: " w)))
        by exact Hok.
      destruct (dispatch_ok (lower (strip cmd)) args today _ Hok1)
        as [Hb Hf].
      destruct (dispatch (lower (strip cmd)) args today
                  (write "Enter a command: " w)) as [[f | [|]] w2].
      * simpl in *. split; [exact Hb |].
        destruct (Hf f eq_refl) as [msg ->]. right. right. right. eauto.
      * simpl in *. split; [exact Hb | tauto].
      * simpl in Hb. now apply IH.
Qed.

(** X26: How a session ends, whatever is typed: by [exit] or [close]; by the
    end of the input; by the [ValueError] of [parse_input] on a line with
    nothing but white space, which nothing catches; or by the
    [OverflowError] of [birthdays] at the end of the calendar. It never
    ends by [IndexError], and the book it leaves is well formed. *)
Theorem main_endings (inputs : list (string * datetime)) :
  book_ok (book (snd (main inputs))) /\
  (fst (main inputs) = Exited \/
   fst (main inputs) = Crashed EOFError \/
   fst (main inputs) = Crashed (Raised unpack_error) \/
   exists msg : string,
     fst (main inputs) = Crashed (Raised (OverflowError msg))).
Proof.
  unfold main. cbn [print book stdout]. apply main_loop_ok.
  exact book_ok_empty.
Qed.

(** X27: A line with nothing but white space, the empty line included, ends
    the session: the [ValueError] of [parse_input] is raised outside the
    [try] of the loop, after the prompt was written; what follows is not
    read. *)
Theorem main_loop_blank_line (line : string) (today : datetime)
    (rest : list (string * datetime)) (w : console) :
  all_chars char_isspace line = true ->
  main_loop ((line, today) :: rest) w
  = (Crashed (Raised unpack_error), write "Enter a command: " w).
Proof.
  intros H. cbn [main_loop]. unfold parse_input, split.
  assert (E : split_scan line EmptyString = []).
  { apply split_scan_nil. tauto. }
  rewrite E. reflexivity.
Qed.

Lemma main_loop_blank_line_witness :
  main_loop [("   ", mkDatetime 738945 0); ("hello", mkDatetime 738945 0)]
    (mkConsole AddressBook.empty [])
  = (Crashed (Raised unpack_error),
     write "Enter a command: " (mkConsole AddressBook.empty [])).
Proof.
  apply (main_loop_blank_line "   " (mkDatetime 738945 0)
           [("hello", mkDatetime 738945 0)] (mkConsole AddressBook.empty [])).
  reflexivity.
Defined.

(** X28: The command [all] on an empty book writes nothing: [show_all] returns
    its text that there are no contacts, and the loop drops what
    [show_all] returns. *)
Theorem dispatch_all_empty (args : list string) (today : datetime)
    (w : console) :
  book w = [] ->
  dispatch "all" args today w = (inr false, w).
Proof.
  intros H. unfold dispatch. cbn [String.eqb Ascii.eqb Bool.eqb orb].
  unfold cbind. rewrite show_all_run, H. simpl.
  rewrite app_nil_r, <- H. now rewrite console_eta.
Qed.

Lemma dispatch_all_empty_witness :
  dispatch "all" [] (mkDatetime 738945 0)
    (mkConsole AddressBook.empty ["Enter a command: "])
  = (inr false, mkConsole AddressBook.empty ["Enter a command: "]).
Proof.
  apply (dispatch_all_empty [] (mkDatetime 738945 0)
           (mkConsole AddressBook.empty ["Enter a command: "])).
  reflexivity.
Defined.

(** X29: A line whose first token is exit or close, in any case of letters,
    ends the session after the farewell, whatever white space stands
    before, between and after its tokens; the arguments are ignored, the
    book is as before and what follows is not read. *)
Theorem main_loop_exit (line first : string) (args : list string)
    (today : datetime) (rest : list (string * datetime)) (w : console) :
  split line = first :: args ->
  lower first = "exit" \/ lower first = "close" ->
  main_loop ((line, today) :: rest) w
  = (Exited,
     mkConsole (book w)
       (stdout w ++ ["Enter a command: "]
        ++ [("Good bye!" ++ newline)%string])).
Proof.
  intros Hs He. cbn [main_loop]. unfold parse_input. rewrite Hs.
  assert (Ht : token first).
  { apply (split_scan_tokens line EmptyString first); [reflexivity |].
    fold (split line). rewrite Hs. now left. }
  rewrite (strip_token first (proj2 Ht)), guarded_run.
  unfold dispatch.
  destruct He as [-> | ->]; cbn [String.eqb Ascii.eqb Bool.eqb orb];
    unfold cbind, print, write, cret; cbn [book stdout];
    now rewrite <- app_assoc.
Qed.

Lemma main_loop_exit_witness :
  main_loop [(("  EXIT" ++ String (ascii_of_N 9) "now   please ")%string,
              mkDatetime 738945 0);
             ("hello", mkDatetime 738945 0)]
    (mkConsole AddressBook.empty [])
  = (Exited,
     mkConsole AddressBook.empty
       ([] ++ ["Enter a command: "] ++ [("Good bye!" ++ newline)%string])).
Proof.
  apply (main_loop_exit
           ("  EXIT" ++ String (ascii_of_N 9) "now   please ")%string
           "EXIT" ["now"; "please"] (mkDatetime 738945 0)
           [("hello", mkDatetime 738945 0)] (mkConsole AddressBook.empty [])).
  - reflexivity.
  - left. reflexivity.
Defined.
